(** * todo-api: the CRUD handlers over the in-memory slice and the SQL table

    A shallow embedding of [main.go] (the in-memory variant: the package
    variable [todos] and the five handlers) and of the table-backed
    [UpdateHandler], followed by the properties of the handlers.

    The router, the JSON codec, [strconv.Atoi] and the SQL driver are
    libraries the handlers call.  A request is therefore represented by what a
    handler observes of it: the outcome of
    [strconv.Atoi(mux.Vars(r)["id"])] and the outcome of
    [json.NewDecoder(r.Body).Decode(&data)].  A response is the status code,
    the [Content-Type] header and the value handed to the encoder (or the
    text handed to [http.Error]).  Calls to [log.Printf] do not influence
    state or response and are left out. *)

From stdpp Require Import base numbers list strings.

Local Open Scope string_scope.
Local Open Scope list_scope.
Local Open Scope Z_scope.

(** ** Go's [int] *)

Module GoInt.

(** [int] is 64 bits wide on the 64-bit platforms the service is built for;
    arithmetic on it wraps around silently. *)
Definition intSize : Z := 64.
Definition MaxInt : Z := 2 ^ (intSize - 1) - 1.
Definition MinInt : Z := - 2 ^ (intSize - 1).

Definition in_range (z : Z) : Prop := MinInt ≤ z ≤ MaxInt.

(** Two's complement wrap-around of a mathematical integer. *)
Definition wrap (z : Z) : Z := (z - MinInt) `mod` 2 ^ intSize + MinInt.

(** [x + y] on [int]. *)
Definition add (x y : Z) : Z := wrap (x + y).

End GoInt.

(** ** Data model *)

(** [type Todo struct { ID int; Task string; Done bool }] *)
Record Todo : Type := mkTodo {
  ID : Z;
  Task : string;
  Done : bool
}.

(** [var todos = []Todo{...}], the collection at start-up. *)
Definition todos : list Todo :=
  [ mkTodo 1 "Learn Go basics" true;
    mkTodo 2 "Build a simple API" false ].

(** ** Requests and responses *)

(** A value together with Go's [error]: [Ok v] stands for [(v, nil)] and
    [Err msg] for a non-nil error whose [Error()] text is [msg]. *)
Inductive result (A : Type) : Type :=
| Ok (v : A)
| Err (msg : string).
Arguments Ok {A} v.
Arguments Err {A} msg.

(** What the handlers read from [r *http.Request]. *)
Record Request : Type := mkRequest {
  (** [strconv.Atoi(mux.Vars(r)["id"])] *)
  PathID : result Z;
  (** [json.NewDecoder(r.Body).Decode(&data)] *)
  Body : result Todo
}.

(** What is written to the response: nothing, the text given to
    [http.Error], or the value given to [json.NewEncoder(w).Encode]. *)
Inductive Payload : Type :=
| NoBody
| Text (msg : string)
| JSONTodo (t : Todo)
| JSONTodos (l : list Todo).

Record Response : Type := mkResponse {
  Status : Z;
  ContentType : option string;
  Written : Payload
}.

Definition StatusOK : Z := 200.
Definition StatusCreated : Z := 201.
Definition StatusNoContent : Z := 204.
Definition StatusBadRequest : Z := 400.
Definition StatusNotFound : Z := 404.
Definition StatusConflict : Z := 409.
Definition StatusInternalServerError : Z := 500.

(** [http.Error(w, msg, code)]: a plain-text body with the given status. *)
Definition http_Error (msg : string) (code : Z) : Response :=
  mkResponse code (Some "text/plain; charset=utf-8") (Text msg).

(** [w.Header().Set("Content-Type", "application/json")], the status written
    (explicitly or by the first write) and the encoded value. *)
Definition json_response (code : Z) (p : Payload) : Response :=
  mkResponse code (Some "application/json") p.

(** ** The [slices] functions used by the handlers *)

(** The loop of [slices.IndexFunc]: the index of the first element that
    satisfies [f], counting from [i]; [-1] when there is none. *)
Fixpoint index_from {A : Type} (f : A → bool) (s : list A) (i : Z) : Z :=
  match s with
  | [] => -1
  | x :: s' => if f x then i else index_from f s' (i + 1)
  end.

Definition IndexFunc {A : Type} (s : list A) (f : A → bool) : Z :=
  index_from f s 0.

(** [slices.Delete(s, i, j)] removes [s[i:j]].  Go panics when the bounds are
    not within the slice; [DeleteHandler], its only caller, passes [idx] and
    [idx + 1] for an index returned by [IndexFunc] and different from [-1],
    which is in range (see [IndexFunc_found]), so that [idx + 1] is at most
    [len(s)] and does not wrap. *)
Definition slices_Delete {A : Type} (s : list A) (i j : Z) : list A :=
  take (Z.to_nat i) s ++ drop (Z.to_nat j) s.

(** ** The in-memory handlers *)

Module Mem.

(** The package variable [todos] is the state every handler runs on. *)
Definition State : Type := list Todo.

Definition ListHandler (todos : State) : Response * State :=
  (json_response StatusOK (JSONTodos todos), todos).

(** The search loop of [ReadHandler]: the first item whose [ID] is [id]. *)
Fixpoint found (id : Z) (todos : list Todo) : option Todo :=
  match todos with
  | [] => None
  | t :: rest => if ID t =? id then Some t else found id rest
  end.

Definition ReadHandler (r : Request) (todos : State) : Response * State :=
  match PathID r with
  | Err _ =>
      (http_Error "Invalid ID! ID must be an integer" StatusBadRequest, todos)
  | Ok id =>
      match found id todos with
      | None => (http_Error "Todo not found" StatusNotFound, todos)
      | Some t => (json_response StatusOK (JSONTodo t), todos)
      end
  end.

(** The body of the loop that computes [maxID] in [CreateHandler]. *)
Definition maxID_step (maxID : Z) (todo : Todo) : Z :=
  if maxID <? ID todo then ID todo else maxID.

(** [var maxID int; for _, todo := range todos { ... }] *)
Definition maxID (todos : list Todo) : Z := fold_left maxID_step todos 0.

Definition CreateHandler (r : Request) (todos : State) : Response * State :=
  match Body r with
  | Err msg => (http_Error msg StatusBadRequest, todos)
  | Ok data =>
      if String.eqb (Task data) ""
      then (http_Error "Task is empty" StatusBadRequest, todos)
      else
        let newTask :=
          mkTodo (GoInt.add (maxID todos) 1) (Task data) (Done data) in
        (json_response StatusCreated (JSONTodo newTask), todos ++ [newTask])
  end.

Definition UpdateHandler (r : Request) (todos : State) : Response * State :=
  match PathID r with
  | Err _ =>
      (http_Error "Invalid ID! ID must be an integer" StatusBadRequest, todos)
  | Ok id =>
      match Body r with
      | Err msg => (http_Error msg StatusBadRequest, todos)
      | Ok data =>
          if negb (id =? ID data)
          then (http_Error "Id in url doesn't match the id in the body"
                  StatusConflict, todos)
          else
            let idx := IndexFunc todos (λ t, ID t =? id) in
            if idx =? -1
            then (http_Error "Todo not found" StatusNotFound, todos)
            else (json_response StatusOK (JSONTodo data),
                  <[Z.to_nat idx := data]> todos)
      end
  end.

Definition DeleteHandler (r : Request) (todos : State) : Response * State :=
  match PathID r with
  | Err _ =>
      (http_Error "Invalid ID! ID must be an integer" StatusBadRequest, todos)
  | Ok id =>
      let idx := IndexFunc todos (λ t, ID t =? id) in
      if idx =? -1
      then (http_Error "Todo not found" StatusNotFound, todos)
      else (mkResponse StatusNoContent None NoBody,
            slices_Delete todos idx (idx + 1))
  end.

(** The routes registered in [main]. *)
Inductive Call : Type :=
| GET_todos
| GET_todo (r : Request)
| POST_todos (r : Request)
| PUT_todo (r : Request)
| DELETE_todo (r : Request).

Definition serve (c : Call) (todos : State) : Response * State :=
  match c with
  | GET_todos => ListHandler todos
  | GET_todo r => ReadHandler r todos
  | POST_todos r => CreateHandler r todos
  | PUT_todo r => UpdateHandler r todos
  | DELETE_todo r => DeleteHandler r todos
  end.

(** Serving a sequence of requests one after the other: the responses in
    order and the collection at the end. *)
Fixpoint serve_all (cs : list Call) (todos : State) : list Response * State :=
  match cs with
  | [] => ([], todos)
  | c :: cs' =>
      let '(resp, todos') := serve c todos in
      let '(resps, final) := serve_all cs' todos' in
      (resp :: resps, final)
  end.

(** The collections the running service can hold. *)
Inductive reachable : State → Prop :=
| reachable_start : reachable todos
| reachable_serve c s : reachable s → reachable (serve c s).2.

(** The identifier a call was answered with, when the call is a Create that
    succeeded: the [id] of the item in the 201 response to a POST. *)
Definition created (c : Call) (resp : Response) : option Z :=
  match c, Written resp with
  | POST_todos _, JSONTodo t =>
      if Status resp =? StatusCreated then Some (ID t) else None
  | _, _ => None
  end.

(** The identifiers assigned by the successful Creates of a run, in order. *)
Definition assigned (cs : list Call) (todos : State) : list Z :=
  omap (λ p, created p.1 p.2) (zip cs (serve_all cs todos).1).

(** No Delete of the run asks for the largest identifier held when it is
    served. *)
Fixpoint spares_max (cs : list Call) (todos : State) : Prop :=
  match cs with
  | [] => True
  | c :: cs' =>
      match c with
      | DELETE_todo r => PathID r ≠ Ok (maxID todos)
      | _ => True
      end
      ∧ spares_max cs' (serve c todos).2
  end.

(** What a call may do to the identifiers of the collection: a Create
    appends one item, an Update keeps every position's identifier, a Delete
    takes one position out, and the reads change nothing. *)
Definition ids_kept (c : Call) (before after : State) : Prop :=
  match c with
  | GET_todos | GET_todo _ => after = before
  | POST_todos _ => after = before ∨ ∃ new, after = before ++ [new]
  | PUT_todo _ => ID <$> after = ID <$> before
  | DELETE_todo _ => after = before ∨ ∃ k, after = delete k before
  end.

End Mem.

(** The items that Creates with the bodies [ps] leave on an empty collection:
    the [k]-th of them (from 0) carries identifier [k + 1]. *)
Definition numbered (ps : list (result Z * Todo)) : list Todo :=
  imap (λ k p, mkTodo (Z.of_nat k + 1) (Task p.2) (Done p.2)) ps.

(** ** The table-backed [UpdateHandler]

    The handler of the SQL variant, over a driver that is left abstract:
    [Exec] stands for [db.Exec] and owns the table. *)

Module Table.

(** The statement [UpdateHandler] executes,
    [UPDATE todos SET task = ?, done = ? WHERE id = ?], with its arguments. *)
Inductive Stmt : Type :=
| UPDATE_todos (task : string) (done : bool) (id : Z).

(** [sql.Result], of which the handler calls [RowsAffected()]. *)
Record SqlResult : Type := mkSqlResult {
  RowsAffected : result Z
}.

Section Handlers.

Context {DB : Type}.

(** [db.Exec(query, args...)]: the driver's answer and the database
    after the call. *)
Variable Exec : Stmt → DB → result SqlResult * DB.

Definition UpdateHandler (r : Request) (db : DB) : Response * DB :=
  match PathID r with
  | Err _ =>
      (http_Error "Invalid ID! ID must be an integer" StatusBadRequest, db)
  | Ok id =>
      match Body r with
      | Err msg => (http_Error msg StatusBadRequest, db)
      | Ok data =>
          if negb (id =? ID data)
          then (http_Error "Id in url doesn't match the id in the body"
                  StatusConflict, db)
          else
            let '(res, db') :=
              Exec (UPDATE_todos (Task data) (Done data) id) db in
            match res with
            | Err _ =>
                (http_Error "Internal server error"
                   StatusInternalServerError, db')
            | Ok result =>
                match RowsAffected result with
                | Err _ =>
                    (http_Error "Internal server error"
                       StatusInternalServerError, db')
                | Ok rowsAffected =>
                    if rowsAffected =? 0
                    then (http_Error "Todo not found" StatusNotFound, db')
                    else (json_response StatusOK (JSONTodo data), db')
                end
            end
      end
  end.

End Handlers.




End Table.

(** ** The other table-backed handlers

    [ListHandler], [ReadHandler], [CreateHandler] and [DeleteHandler] of the
    SQL variant and the routes of its [main], over the same kind of abstract
    driver as [Table.UpdateHandler]: every call into [database/sql] is a
    function of the driver that returns Go's result and the database after
    the call.  Calls to [slog] are left out. *)

Module Sql.

(** [*sql.Rows] as [ListHandler] consumes it: the outcome of [rows.Scan] for
    each row that [rows.Next()] announces, in order, and [rows.Err()] once
    [Next] has returned false ([None] for [nil]). *)
Record Rows : Type := mkRows {
  Scans : list (result Todo);
  RowsErr : option string
}.

(** [row.Scan(&todo.ID, &todo.Task, &todo.Done)] on the row of
    [db.QueryRow]: the item read, [sql.ErrNoRows], or another error. *)
Inductive RowScan : Type :=
| Scanned (todo : Todo)
| ErrNoRows
| ScanErr (msg : string).

(** The statements [CreateHandler] and [DeleteHandler] execute,
    [INSERT INTO todos (task, done) VALUES (?, ?)] and
    [DELETE FROM todos WHERE id = ?], with their arguments. *)
Inductive Stmt : Type :=
| INSERT_todos (task : string) (done : bool)
| DELETE_todos (id : Z).

(** [sql.Result]: [LastInsertId()] and [RowsAffected()]. *)
Record Result : Type := mkResult {
  LastInsertId : result Z;
  RowsAffected : result Z
}.

(** The calls the handlers make on [db *sql.DB]. *)
Record Driver (DB : Type) : Type := mkDriver {
  (** [db.Query("SELECT id, task, done from todos")] *)
  Query : DB → result Rows * DB;
  (** [db.QueryRow("SELECT id, task, done FROM todos WHERE id = ?", id)]
      followed by [row.Scan] *)
  QueryRow : Z → DB → RowScan * DB;
  (** [db.Exec] of an INSERT or a DELETE *)
  Exec : Stmt → DB → result Result * DB;
  (** [db.Exec] of the UPDATE of [Table.UpdateHandler] *)
  ExecUpdate : Table.Stmt → DB → result Table.SqlResult * DB
}.
Arguments Query {DB} _ _.
Arguments QueryRow {DB} _ _ _.
Arguments Exec {DB} _ _ _.
Arguments ExecUpdate {DB} _ _ _.

(** The response to every storage failure. *)
Definition internal_error : Response :=
  http_Error "Internal server error" StatusInternalServerError.

(** The loop [for rows.Next() { ... rows.Scan ... todos = append(todos, todo) }]
    of [ListHandler]: the items scanned so far are kept in [todos]; the first
    failing scan ends the handler. *)
Fixpoint scan_rows (scans : list (result Todo)) (todos : list Todo)
  : result (list Todo) :=
  match scans with
  | [] => Ok todos
  | Ok todo :: rest => scan_rows rest (todos ++ [todo])
  | Err msg :: _ => Err msg
  end.

Section Handlers.

Context {DB : Type}.
Variable drv : Driver DB.

(** The slice starts as [var todos []Todo]; the empty list stands for it. *)
Definition ListHandler (db : DB) : Response * DB :=
  let '(res, db') := Query drv db in
  match res with
  | Err _ => (internal_error, db')
  | Ok rows =>
      match scan_rows (Scans rows) [] with
      | Err _ => (internal_error, db')
      | Ok todos =>
          match RowsErr rows with
          | Some _ => (internal_error, db')
          | None => (json_response StatusOK (JSONTodos todos), db')
          end
      end
  end.

Definition ReadHandler (r : Request) (db : DB) : Response * DB :=
  match PathID r with
  | Err _ =>
      (http_Error "Invalid ID! ID must be an integer" StatusBadRequest, db)
  | Ok id =>
      let '(scan, db') := QueryRow drv id db in
      match scan with
      | ErrNoRows => (http_Error "Todo not found" StatusNotFound, db')
      | ScanErr _ => (internal_error, db')
      | Scanned todo => (json_response StatusOK (JSONTodo todo), db')
      end
  end.

(** [int(id)] converts the [int64] of [LastInsertId] to an [int] of the same
    width and is left out. *)
Definition CreateHandler (r : Request) (db : DB) : Response * DB :=
  match Body r with
  | Err msg => (http_Error msg StatusBadRequest, db)
  | Ok data =>
      if String.eqb (Task data) ""
      then (http_Error "Task is empty" StatusBadRequest, db)
      else
        let '(res, db') := Exec drv (INSERT_todos (Task data) (Done data)) db in
        match res with
        | Err _ => (internal_error, db')
        | Ok result =>
            match LastInsertId result with
            | Err _ => (internal_error, db')
            | Ok id =>
                let newTask := mkTodo id (Task data) (Done data) in
                (json_response StatusCreated (JSONTodo newTask), db')
            end
        end
  end.

Definition DeleteHandler (r : Request) (db : DB) : Response * DB :=
  match PathID r with
  | Err _ =>
      (http_Error "Invalid ID! ID must be an integer" StatusBadRequest, db)
  | Ok id =>
      let '(res, db') := Exec drv (DELETE_todos id) db in
      match res with
      | Err _ => (internal_error, db')
      | Ok result =>
          match RowsAffected result with
          | Err _ => (internal_error, db')
          | Ok rowsAffected =>
              if rowsAffected =? 0
              then (http_Error "Todo not found" StatusNotFound, db')
              else (mkResponse StatusNoContent None NoBody, db')
          end
      end
  end.

(** The routes registered in the table-backed [main], the same as in the
    in-memory one. *)
Definition serve (c : Mem.Call) (db : DB) : Response * DB :=
  match c with
  | Mem.GET_todos => ListHandler db
  | Mem.GET_todo r => ReadHandler r db
  | Mem.POST_todos r => CreateHandler r db
  | Mem.PUT_todo r => Table.UpdateHandler (ExecUpdate drv) r db
  | Mem.DELETE_todo r => DeleteHandler r db
  end.

End Handlers.

End Sql.

(** ** Counting responses *)

(** How many responses of a run carry the status [code]. *)
Definition count_status (code : Z) (resps : list Response) : nat :=
  length (filter (λ resp, Status resp = code) resps).

(** * Lemmas *)

Implicit Types (s : list Todo) (t data old : Todo) (id i m n : Z) (k : nat).
Implicit Types (c : Mem.Call) (cs : list Mem.Call) (r : Request).

(** ** Arithmetic on [int] *)

Lemma pow_intSize : 2 ^ GoInt.intSize = 18446744073709551616.
Proof. reflexivity. Qed.

Lemma MaxInt_value : GoInt.MaxInt = 9223372036854775807.
Proof. reflexivity. Qed.

Lemma MinInt_value : GoInt.MinInt = -9223372036854775808.
Proof. reflexivity. Qed.

(** Closes range side conditions once the bounds of [int] are numerals. *)
Ltac int_range :=
  unfold GoInt.in_range in *;
  rewrite ?MinInt_value, ?MaxInt_value in *; lia.

Lemma wrap_in_range z : GoInt.in_range z → GoInt.wrap z = z.
Proof.
  unfold GoInt.in_range, GoInt.wrap.
  rewrite pow_intSize, MaxInt_value, MinInt_value. intros Hz. rewrite Z.mod_small; lia.
Qed.

Lemma add_no_overflow x y :
  GoInt.in_range (x + y) → GoInt.add x y = x + y.
Proof. apply wrap_in_range. Qed.

Lemma add_MaxInt_1 : GoInt.add GoInt.MaxInt 1 = GoInt.MinInt.
Proof. reflexivity. Qed.

(** ** [maxID] is the largest of 0 and the stored identifiers *)

Lemma fold_maxID_step s a :
  a ≤ fold_left Mem.maxID_step s a
  ∧ (∀ t, t ∈ s → ID t ≤ fold_left Mem.maxID_step s a)
  ∧ (fold_left Mem.maxID_step s a = a
     ∨ ∃ t, t ∈ s ∧ ID t = fold_left Mem.maxID_step s a).
Proof.
  revert a. induction s as [|t s IH]; intros a; simpl.
  - split; [lia|]. split; [|by left]. intros t Ht. by apply elem_of_nil in Ht.
  - destruct (IH (Mem.maxID_step a t)) as (Hge & Hub & Hatt).
    assert (Hstep : a ≤ Mem.maxID_step a t ∧ ID t ≤ Mem.maxID_step a t
                    ∧ (Mem.maxID_step a t = a ∨ Mem.maxID_step a t = ID t)).
    { unfold Mem.maxID_step. destruct (Z.ltb_spec a (ID t)); lia. }
    destruct Hstep as (Ha & Ht & Hcase).
    split; [lia|]. split.
    + intros u Hu. apply elem_of_cons in Hu as [->|Hu]; [lia|by apply Hub].
    + destruct Hatt as [Heq|(u & Hu & Hid)].
      * destruct Hcase as [Hc|Hc].
        -- left. lia.
        -- right. exists t. split; [apply elem_of_cons; by left|lia].
      * right. exists u. split; [apply elem_of_cons; by right|done].
Qed.

Lemma maxID_nonneg s : 0 ≤ Mem.maxID s.
Proof. apply (fold_maxID_step s 0). Qed.

Lemma maxID_upper s t : t ∈ s → ID t ≤ Mem.maxID s.
Proof. apply (fold_maxID_step s 0). Qed.

Lemma maxID_attained s :
  Mem.maxID s = 0 ∨ ∃ t, t ∈ s ∧ ID t = Mem.maxID s.
Proof. apply (fold_maxID_step s 0). Qed.

(** Any bound with the three properties above is [maxID]. *)
Lemma maxID_unique s m :
  0 ≤ m → (∀ t, t ∈ s → ID t ≤ m) → (m = 0 ∨ ∃ t, t ∈ s ∧ ID t = m) →
  Mem.maxID s = m.
Proof.
  intros H0 Hub Hatt.
  pose proof (maxID_nonneg s) as G0.
  destruct (maxID_attained s) as [G|(u & Hu & G)];
    destruct Hatt as [->|(t & Ht & <-)];
    try (apply maxID_upper in Ht); try (apply Hub in Hu).
  all: lia.
Qed.

Lemma maxID_app s t :
  Mem.maxID (s ++ [t]) = Z.max (Mem.maxID s) (ID t).
Proof.
  unfold Mem.maxID. rewrite fold_left_app. simpl.
  generalize (fold_left Mem.maxID_step s 0). intros m.
  unfold Mem.maxID_step. destruct (Z.ltb_spec m (ID t)); lia.
Qed.

Lemma maxID_same_ids (s s' : list Todo) :
  ID <$> s' = ID <$> s → Mem.maxID s' = Mem.maxID s.
Proof.
  intros Hids. apply maxID_unique; [apply maxID_nonneg| |].
  - intros t Ht. apply (list_elem_of_fmap_2 ID) in Ht. rewrite Hids in Ht.
    apply list_elem_of_fmap in Ht as (u & -> & Hu). by apply maxID_upper.
  - destruct (maxID_attained s) as [H0|(t & Ht & Hid)]; [by left|right].
    apply (list_elem_of_fmap_2 ID) in Ht. rewrite <- Hids in Ht.
    apply list_elem_of_fmap in Ht as (u & Heq & Hu). exists u. split; [done|lia].
Qed.

Lemma maxID_delete (s : list Todo) (k : nat) (old : Todo) :
  s !! k = Some old → ID old ≠ Mem.maxID s →
  Mem.maxID (delete k s) = Mem.maxID s.
Proof.
  intros Hk Hne. apply maxID_unique; [apply maxID_nonneg| |].
  - intros t Ht. apply list_elem_of_delete_inv in Ht. by apply maxID_upper.
  - destruct (maxID_attained s) as [H0|(t & Ht & Hid)]; [by left|right].
    exists t. split; [|done].
    rewrite (delete_Permutation _ _ _ Hk) in Ht.
    apply elem_of_cons in Ht as [->|Ht]; done.
Qed.

(** ** [IndexFunc], the search loop of [ReadHandler] and [slices.Delete] *)

Lemma index_from_list_find id s i :
  index_from (λ t, ID t =? id) s i =
  match list_find (λ t, ID t = id) s with
  | Some (k, _) => i + Z.of_nat k
  | None => -1
  end.
Proof.
  revert i. induction s as [|t s IH]; intros i; simpl; [done|].
  destruct (Z.eqb_spec (ID t) id) as [Heq|Hne].
  - rewrite decide_True by done. lia.
  - rewrite decide_False by done. rewrite IH.
    destruct (list_find _ s) as [[k u]|]; simpl; lia.
Qed.

Lemma IndexFunc_found id s k t :
  list_find (λ t, ID t = id) s = Some (k, t) →
  IndexFunc s (λ t, ID t =? id) = Z.of_nat k
  ∧ s !! k = Some t ∧ ID t = id ∧ (k < length s)%nat.
Proof.
  intros Hf. unfold IndexFunc. rewrite index_from_list_find, Hf.
  apply list_find_Some in Hf as (Hk & Hid & _).
  split; [lia|]. split; [done|]. split; [done|]. by eapply lookup_lt_Some.
Qed.

Lemma IndexFunc_missing id s :
  list_find (λ t, ID t = id) s = None →
  IndexFunc s (λ t, ID t =? id) = -1.
Proof. intros Hf. unfold IndexFunc. by rewrite index_from_list_find, Hf. Qed.

Lemma found_list_find id s :
  Mem.found id s = snd <$> list_find (λ t, ID t = id) s.
Proof.
  induction s as [|t s IH]; simpl; [done|].
  destruct (Z.eqb_spec (ID t) id) as [Heq|Hne].
  - by rewrite decide_True.
  - rewrite decide_False by done. rewrite IH.
    by destruct (list_find _ s) as [[k u]|].
Qed.

Lemma slices_Delete_one {A} (s : list A) (k : nat) :
  slices_Delete s (Z.of_nat k) (Z.of_nat k + 1) = delete k s.
Proof.
  unfold slices_Delete. rewrite delete_take_drop.
  by replace (Z.to_nat (Z.of_nat k + 1)) with (S k) by lia; rewrite Nat2Z.id.
Qed.

(** An identifier is stored iff the search finds an item. *)
Lemma stored_list_find id s :
  (∃ t, t ∈ s ∧ ID t = id) ↔ is_Some (list_find (λ t, ID t = id) s).
Proof.
  split.
  - intros (t & Ht & Hid). by eapply list_find_elem_of.
  - intros [[k t] Hf]. apply list_find_Some in Hf as (Hk & Hid & _).
    exists t. split; [by eapply list_elem_of_lookup_2|done].
Qed.

Lemma not_stored_list_find id s :
  (∀ t, t ∈ s → ID t ≠ id) ↔ list_find (λ t, ID t = id) s = None.
Proof.
  rewrite list_find_None, Forall_forall. done.
Qed.

(** After the first item with a given identifier is deleted, no item with
    that identifier is left, provided the identifier was stored once. *)
Lemma delete_only_occurrence (s : list Todo) (i : Z) (k : nat) (t : Todo) :
  length (filter (λ t, ID t = i) s) = 1%nat →
  s !! k = Some t → ID t = i →
  list_find (λ t, ID t = i) (delete k s) = None.
Proof.
  intros Hone Hk Hid. apply list_find_None, Forall_forall. intros u Hu Hui.
  pose proof (delete_Permutation _ _ _ Hk) as Hp.
  assert (Hlen : length (filter (λ t, ID t = i) (t :: delete k s)) = 1%nat).
  { rewrite <- Hone. apply Permutation_length. by rewrite <- Hp. }
  rewrite filter_cons_True in Hlen by done. simpl in Hlen.
  assert (Hin : u ∈ filter (λ t, ID t = i) (delete k s)).
  { by apply list_elem_of_filter. }
  destruct (filter _ (delete k s)); [by apply elem_of_nil in Hin|done].
Qed.

(** ** One call of a handler *)

Lemma CreateHandler_ok s pid data :
  Task data ≠ "" →
  Mem.CreateHandler (mkRequest pid (Ok data)) s =
  let newTask := mkTodo (GoInt.add (Mem.maxID s) 1) (Task data) (Done data) in
  (json_response StatusCreated (JSONTodo newTask), s ++ [newTask]).
Proof.
  intros Hne. unfold Mem.CreateHandler. simpl.
  by destruct (String.eqb_spec (Task data) "").
Qed.

Lemma ReadHandler_hit s id body k t :
  list_find (λ t, ID t = id) s = Some (k, t) →
  Mem.ReadHandler (mkRequest (Ok id) body) s =
  (json_response StatusOK (JSONTodo t), s).
Proof.
  intros Hf. unfold Mem.ReadHandler. simpl. by rewrite found_list_find, Hf.
Qed.

Lemma ReadHandler_miss s id body :
  list_find (λ t, ID t = id) s = None →
  Mem.ReadHandler (mkRequest (Ok id) body) s =
  (http_Error "Todo not found" StatusNotFound, s).
Proof.
  intros Hf. unfold Mem.ReadHandler. simpl. by rewrite found_list_find, Hf.
Qed.

Lemma UpdateHandler_conflict s id data :
  id ≠ ID data →
  Mem.UpdateHandler (mkRequest (Ok id) (Ok data)) s =
  (http_Error "Id in url doesn't match the id in the body" StatusConflict, s).
Proof.
  intros Hne. unfold Mem.UpdateHandler. simpl.
  by destruct (Z.eqb_spec id (ID data)).
Qed.

Lemma UpdateHandler_hit s data k old :
  list_find (λ t, ID t = ID data) s = Some (k, old) →
  Mem.UpdateHandler (mkRequest (Ok (ID data)) (Ok data)) s =
  (json_response StatusOK (JSONTodo data), <[k := data]> s).
Proof.
  intros Hf. unfold Mem.UpdateHandler. simpl. rewrite Z.eqb_refl. simpl.
  destruct (IndexFunc_found _ _ _ _ Hf) as (-> & _).
  destruct (Z.eqb_spec (Z.of_nat k) (-1)); [lia|]. by rewrite Nat2Z.id.
Qed.

Lemma UpdateHandler_miss s data :
  list_find (λ t, ID t = ID data) s = None →
  Mem.UpdateHandler (mkRequest (Ok (ID data)) (Ok data)) s =
  (http_Error "Todo not found" StatusNotFound, s).
Proof.
  intros Hf. unfold Mem.UpdateHandler. simpl. rewrite Z.eqb_refl. simpl.
  by rewrite (IndexFunc_missing _ _ Hf).
Qed.

Lemma DeleteHandler_hit s id body k old :
  list_find (λ t, ID t = id) s = Some (k, old) →
  Mem.DeleteHandler (mkRequest (Ok id) body) s =
  (mkResponse StatusNoContent None NoBody, delete k s).
Proof.
  intros Hf. unfold Mem.DeleteHandler. simpl.
  destruct (IndexFunc_found _ _ _ _ Hf) as (-> & _).
  destruct (Z.eqb_spec (Z.of_nat k) (-1)); [lia|]. by rewrite slices_Delete_one.
Qed.

Lemma DeleteHandler_miss s id body :
  list_find (λ t, ID t = id) s = None →
  Mem.DeleteHandler (mkRequest (Ok id) body) s =
  (http_Error "Todo not found" StatusNotFound, s).
Proof.
  intros Hf. unfold Mem.DeleteHandler. simpl.
  by rewrite (IndexFunc_missing _ _ Hf).
Qed.

(** What one call can do to the collection and whether it assigns an
    identifier: nothing; a Create that appends the new item; an Update that
    overwrites a position by an item with the same identifier; a Delete that
    takes out a position holding the identifier asked for. *)
Lemma serve_cases (c : Mem.Call) (s : list Todo) :
  ((Mem.serve c s).2 = s ∧ Mem.created c (Mem.serve c s).1 = None)
  ∨ (∃ r data,
       c = Mem.POST_todos r ∧ Body r = Ok data ∧ Task data ≠ ""
       ∧ (Mem.serve c s).2
         = s ++ [mkTodo (GoInt.add (Mem.maxID s) 1) (Task data) (Done data)]
       ∧ Mem.created c (Mem.serve c s).1 = Some (GoInt.add (Mem.maxID s) 1))
  ∨ (∃ r k old data,
       c = Mem.PUT_todo r ∧ s !! k = Some old ∧ ID data = ID old
       ∧ (Mem.serve c s).2 = <[k := data]> s
       ∧ Mem.created c (Mem.serve c s).1 = None)
  ∨ (∃ r k old,
       c = Mem.DELETE_todo r ∧ PathID r = Ok (ID old) ∧ s !! k = Some old
       ∧ (Mem.serve c s).2 = delete k s
       ∧ Mem.created c (Mem.serve c s).1 = None).
Proof.
  destruct c as [|r|r|r|r]; simpl.
  - by left.
  - left. unfold Mem.ReadHandler. destruct (PathID r); [|done].
    by destruct (Mem.found _ _).
  - destruct r as [pid [data|msg]]; [|by left].
    destruct (decide (Task data = "")) as [He|Hne].
    + left. unfold Mem.CreateHandler. simpl. by rewrite He.
    + right. left. exists (mkRequest pid (Ok data)), data.
      by rewrite CreateHandler_ok.
  - destruct r as [[id|msg] [data|msg']]; try by left.
    destruct (decide (id = ID data)) as [->|Hne].
    + destruct (list_find (λ t, ID t = ID data) s) as [[k old]|] eqn:Hf.
      * right. right. left.
        exists (mkRequest (Ok (ID data)) (Ok data)), k, old, data.
        rewrite (UpdateHandler_hit _ _ _ _ Hf).
        apply list_find_Some in Hf as (Hk & Hid & _). by rewrite Hid.
      * left. by rewrite (UpdateHandler_miss _ _ Hf).
    + left. by rewrite UpdateHandler_conflict.
  - destruct r as [[id|msg] body]; [|by left].
    destruct (list_find (λ t, ID t = id) s) as [[k old]|] eqn:Hf.
    + right. right. right. exists (mkRequest (Ok id) body), k, old.
      rewrite (DeleteHandler_hit _ _ _ _ _ Hf).
      apply list_find_Some in Hf as (Hk & Hid & _). by rewrite Hid.
    + left. by rewrite (DeleteHandler_miss _ _ _ Hf).
Qed.

Lemma serve_ids_kept (c : Mem.Call) (s : list Todo) :
  Mem.ids_kept c s (Mem.serve c s).2.
Proof.
  destruct (serve_cases c s)
    as [[Hs _]|[(r & data & -> & _ & _ & Hs & _)
       |[(r & k & old & data & -> & Hk & Hid & Hs & _)
        |(r & k & old & -> & _ & Hk & Hs & _)]]].
  - rewrite Hs. destruct c; simpl; auto.
  - rewrite Hs. simpl. right. by eexists.
  - rewrite Hs. simpl. rewrite list_fmap_insert. apply list_insert_id.
    by rewrite list_lookup_fmap, Hk; simpl; rewrite Hid.
  - rewrite Hs. simpl. right. by eexists.
Qed.

(** While the identifiers are distinct and lie between 1 and a bound [n]
    below the largest [int], a call keeps them distinct and between 1 and
    [n + 1]. *)
Lemma serve_keeps_distinct (c : Mem.Call) (s : list Todo) (n : Z) :
  0 ≤ n < GoInt.MaxInt →
  NoDup (ID <$> s) → (∀ t, t ∈ s → 1 ≤ ID t ≤ n) →
  NoDup (ID <$> (Mem.serve c s).2)
  ∧ (∀ t, t ∈ (Mem.serve c s).2 → 1 ≤ ID t ≤ n + 1).
Proof.
  intros Hn Hnd Hrange.
  destruct (serve_cases c s)
    as [[Hs _]|[(r & data & -> & _ & _ & Hs & _)
       |[(r & k & old & data & -> & Hk & Hid & Hs & _)
        |(r & k & old & -> & _ & Hk & Hs & _)]]]; rewrite Hs.
  - split; [done|]. intros t Ht. apply Hrange in Ht. lia.
  - assert (Hmax : 0 ≤ Mem.maxID s ≤ n).
    { split; [apply maxID_nonneg|].
      destruct (maxID_attained s) as [->|(t & Ht & <-)];
        [lia|by apply Hrange]. }
    rewrite add_no_overflow by int_range.
    split.
    + rewrite fmap_app. apply NoDup_app. split; [done|]. simpl.
      split; [|apply NoDup_singleton].
      intros i Hi Hi'. apply list_elem_of_singleton in Hi' as ->.
      apply list_elem_of_fmap in Hi as (t & Heq & Ht).
      apply maxID_upper in Ht. lia.
    + intros t Ht. apply elem_of_app in Ht as [Ht|Ht].
      * apply Hrange in Ht. lia.
      * apply list_elem_of_singleton in Ht as ->. simpl. lia.
  - assert (Hids : ID <$> <[k := data]> s = ID <$> s).
    { rewrite list_fmap_insert. apply list_insert_id.
      by rewrite list_lookup_fmap, Hk; simpl; rewrite Hid. }
    split; [by rewrite Hids|].
    intros t Ht. apply (list_elem_of_fmap_2 ID) in Ht. rewrite Hids in Ht.
    apply list_elem_of_fmap in Ht as (u & -> & Hu). apply Hrange in Hu. lia.
  - split.
    + rewrite list_fmap_delete.
      eapply sublist_NoDup; [done|apply sublist_delete].
    + intros t Ht. apply list_elem_of_delete_inv in Ht. apply Hrange in Ht. lia.
Qed.

(** ** Runs *)

Lemma serve_all_app (cs1 cs2 : list Mem.Call) (s : list Todo) :
  Mem.serve_all (cs1 ++ cs2) s =
  ((Mem.serve_all cs1 s).1 ++ (Mem.serve_all cs2 (Mem.serve_all cs1 s).2).1,
   (Mem.serve_all cs2 (Mem.serve_all cs1 s).2).2).
Proof.
  revert s. induction cs1 as [|c cs1 IH]; intros s; simpl.
  - by destruct (Mem.serve_all cs2 s).
  - destruct (Mem.serve c s) as [resp s1]. rewrite IH.
    destruct (Mem.serve_all cs1 s1) as [r1 s2]. simpl.
    by destruct (Mem.serve_all cs2 s2).
Qed.

Lemma serve_all_keeps_distinct (cs : list Mem.Call) (s : list Todo) (n : Z) :
  0 ≤ n → n + Z.of_nat (length cs) ≤ GoInt.MaxInt →
  NoDup (ID <$> s) → (∀ t, t ∈ s → 1 ≤ ID t ≤ n) →
  NoDup (ID <$> (Mem.serve_all cs s).2).
Proof.
  revert s n. induction cs as [|c cs IH]; intros s n H0 Hn Hnd Hrange; [done|].
  simpl in *. destruct (Mem.serve c s) as [resp s1] eqn:Hc.
  destruct (Mem.serve_all cs s1) as [resps s2] eqn:Hcs. simpl.
  destruct (serve_keeps_distinct c s n) as [Hnd1 Hrange1]; [lia|done|done|].
  rewrite Hc in Hnd1, Hrange1. simpl in *.
  specialize (IH s1 (n + 1)). rewrite Hcs in IH. apply IH; [lia|lia|done|done].
Qed.

Lemma reachable_serve_all (cs : list Mem.Call) (s : list Todo) :
  Mem.reachable s → Mem.reachable (Mem.serve_all cs s).2.
Proof.
  revert s. induction cs as [|c cs IH]; intros s Hs; [done|].
  simpl. pose proof (Mem.reachable_serve c s Hs) as H1.
  destruct (Mem.serve c s) as [resp s1]. simpl in H1. apply IH in H1.
  destruct (Mem.serve_all cs s1) as [resps s2]. exact H1.
Qed.

Lemma reachable_is_served (s : list Todo) :
  Mem.reachable s ↔ ∃ cs, s = (Mem.serve_all cs todos).2.
Proof.
  split.
  - induction 1 as [|c s Hs [cs ->]]; [by exists []|].
    exists (cs ++ [c]). rewrite serve_all_app. simpl.
    by destruct (Mem.serve c _).
  - intros [cs ->]. apply reachable_serve_all. constructor.
Qed.

Lemma assigned_cons (c : Mem.Call) (cs : list Mem.Call) (s : list Todo) :
  Mem.assigned (c :: cs) s =
  match Mem.created c (Mem.serve c s).1 with
  | Some i => i :: Mem.assigned cs (Mem.serve c s).2
  | None => Mem.assigned cs (Mem.serve c s).2
  end.
Proof.
  unfold Mem.assigned. simpl. destruct (Mem.serve c s) as [resp s1]. simpl.
  destruct (Mem.serve_all cs s1) as [resps s2]. simpl.
  by destruct (Mem.created c resp).
Qed.

(** ** Creates on the empty collection *)

Lemma numbered_snoc ps p :
  numbered (ps ++ [p]) =
  numbered ps ++ [mkTodo (Z.of_nat (length ps) + 1) (Task p.2) (Done p.2)].
Proof.
  unfold numbered. rewrite imap_app. simpl. by rewrite Nat.add_0_r.
Qed.

Lemma maxID_numbered ps : Mem.maxID (numbered ps) = Z.of_nat (length ps).
Proof.
  induction ps as [|p ps IH] using rev_ind; [done|].
  rewrite numbered_snoc, maxID_app, IH, length_app. simpl. lia.
Qed.

Lemma numbered_lookup ps k t :
  numbered ps !! k = Some t → ID t = Z.of_nat k + 1.
Proof.
  unfold numbered. rewrite list_lookup_imap.
  destruct (ps !! k); simpl; [|done]. by intros [= <-].
Qed.

(** ** Running out of [int] *)

(** From the collection that holds only identifier [m], a Create followed by
    a Delete of [m] leads to the collection that holds only [m + 1]. *)
Lemma create_then_delete_previous (m : Z) :
  0 < m < GoInt.MaxInt →
  (Mem.serve_all
     [Mem.POST_todos (mkRequest (Err "no id") (Ok (mkTodo 0 "x" false)));
      Mem.DELETE_todo (mkRequest (Ok m) (Err "EOF"))]
     [mkTodo m "x" false]).2
  = [mkTodo (m + 1) "x" false].
Proof.
  intros Hm.
  assert (Hmax : Mem.maxID [mkTodo m "x" false] = m).
  { unfold Mem.maxID, Mem.maxID_step. simpl.
    destruct (Z.ltb_spec 0 m); lia. }
  cbn [Mem.serve_all Mem.serve].
  rewrite CreateHandler_ok by done. cbn [Task Done app].
  rewrite Hmax, add_no_overflow by int_range.
  rewrite (DeleteHandler_hit _ m _ 0%nat (mkTodo m "x" false)); [done|].
  simpl. by rewrite decide_True.
Qed.

(** Every collection holding a single identifier from 3 up to the largest
    [int] can be reached from the start-up collection. *)
Lemma reachable_single (z : Z) :
  3 ≤ z ≤ GoInt.MaxInt → Mem.reachable [mkTodo z "x" false].
Proof.
  intros [H3 Hz]. revert Hz. pattern z.
  apply Z.le_ind with (n := 3); [solve_proper| | |done].
  - intros _.
    exact (reachable_serve_all
             [Mem.DELETE_todo (mkRequest (Ok 1) (Err "EOF"));
              Mem.POST_todos (mkRequest (Err "no id") (Ok (mkTodo 0 "x" false)));
              Mem.DELETE_todo (mkRequest (Ok 2) (Err "EOF"))]
             todos Mem.reachable_start).
  - intros m Hm IH Hsucc.
    rewrite <- Z.add_1_r, <- create_then_delete_previous by lia.
    apply reachable_serve_all, IH. lia.
Qed.

(** After the largest [int] the service holds the smallest one: a Create on
    the collection that holds only the largest [int] wraps around, and a
    Delete of the largest [int] then leaves the smallest [int] alone. *)
Lemma reachable_MinInt_alone : Mem.reachable [mkTodo GoInt.MinInt "x" false].
Proof.
  assert (Hmax : Mem.reachable [mkTodo GoInt.MaxInt "x" false]).
  { apply reachable_single. rewrite MaxInt_value. lia. }
  exact (reachable_serve_all
           [Mem.POST_todos (mkRequest (Err "no id") (Ok (mkTodo 0 "x" false)));
            Mem.DELETE_todo (mkRequest (Ok GoInt.MaxInt) (Err "EOF"))]
           _ Hmax).
Qed.

(** Two Creates on the collection that holds only the largest [int] are both
    assigned the smallest [int]. *)
Lemma reachable_MinInt_twice :
  Mem.reachable [mkTodo GoInt.MaxInt "x" false;
                 mkTodo GoInt.MinInt "x" false;
                 mkTodo GoInt.MinInt "x" false].
Proof.
  assert (Hmax : Mem.reachable [mkTodo GoInt.MaxInt "x" false]).
  { apply reachable_single. rewrite MaxInt_value. lia. }
  exact (reachable_serve_all
           [Mem.POST_todos (mkRequest (Err "no id") (Ok (mkTodo 0 "x" false)));
            Mem.POST_todos (mkRequest (Err "no id") (Ok (mkTodo 0 "x" false)))]
           _ Hmax).
Qed.

(** ** Drivers for the table-backed [UpdateHandler] *)



(** ** The scenario of the specification, run on the empty collection *)

Example scenario :
  Mem.serve_all
    [Mem.POST_todos (mkRequest (Err "no id") (Ok (mkTodo 0 "Learn Go" false)));
     Mem.GET_todo (mkRequest (Ok 1) (Err "EOF"));
     Mem.PUT_todo (mkRequest (Ok 1) (Ok (mkTodo 1 "Learn Go" true)));
     Mem.DELETE_todo (mkRequest (Ok 1) (Err "EOF"));
     Mem.GET_todo (mkRequest (Ok 1) (Err "EOF"))]
    []
  = ([json_response StatusCreated (JSONTodo (mkTodo 1 "Learn Go" false));
      json_response StatusOK (JSONTodo (mkTodo 1 "Learn Go" false));
      json_response StatusOK (JSONTodo (mkTodo 1 "Learn Go" true));
      mkResponse StatusNoContent None NoBody;
      http_Error "Todo not found" StatusNotFound],
     []).
Proof. reflexivity. Qed.

(** * The claims *)

(** ** C1: the identifier assigned by Create *)

(** C1, as stated, fails on a collection the service reaches once the
    identifiers have run out of [int]: the collection that holds only the
    smallest [int].  The largest existing identifier is then the smallest
    [int], yet the new item gets 1, because [maxID] starts from 0. *)
Lemma create_max_plus_one_fails :
  let s := [mkTodo GoInt.MinInt "x" false] in
  let data := mkTodo 0 "Learn Go" false in
  Mem.reachable s
  ∧ (∀ t, t ∈ s → ID t ≤ GoInt.MinInt)
  ∧ (∃ t, t ∈ s ∧ ID t = GoInt.MinInt)
  ∧ Mem.CreateHandler (mkRequest (Err "no id") (Ok data)) s
    = (json_response StatusCreated (JSONTodo (mkTodo 1 "Learn Go" false)),
       s ++ [mkTodo 1 "Learn Go" false])
  ∧ 1 ≠ GoInt.MinInt + 1.
Proof.
  simpl. split; [exact reachable_MinInt_alone|]. split; [|split; [|split]].
  - intros t Ht. apply list_elem_of_singleton in Ht as ->. simpl. lia.
  - eexists. split; [apply list_elem_of_singleton; reflexivity|reflexivity].
  - reflexivity.
  - rewrite MinInt_value. lia.
Qed.

(** C1, amended.  On every collection a successful Create (body decoded, task
    not empty) answers 201 with the new item and appends it; the identifier
    of the new item is [m + 1] in Go's [int], where [m] is the largest of 0
    and the stored identifiers: it is the largest stored identifier plus 1
    whenever that identifier is not negative and below the largest [int], and
    1 on a collection that is empty or holds only negative identifiers.  The
    identifier of the body is ignored; in particular the body
    [{"task":"Learn Go","done":false}] on the empty collection gives 201 with
    [{"id":1,"task":"Learn Go","done":false}]. *)
Theorem create_assigns_next_id (s : list Todo) (pid : result Z) (data : Todo) :
  Task data ≠ "" →
  (∃ (m : Z) (new : Todo),
     (0 ≤ m ∧ (∀ t, t ∈ s → ID t ≤ m) ∧ (m = 0 ∨ ∃ t, t ∈ s ∧ ID t = m))
     ∧ new = mkTodo (GoInt.wrap (m + 1)) (Task data) (Done data)
     ∧ Mem.CreateHandler (mkRequest pid (Ok data)) s
       = (json_response StatusCreated (JSONTodo new), s ++ [new])
     ∧ (m < GoInt.MaxInt → ID new = m + 1))
  ∧ (∀ id, Mem.CreateHandler
             (mkRequest pid (Ok (mkTodo id "Learn Go" false))) []
           = (json_response StatusCreated (JSONTodo (mkTodo 1 "Learn Go" false)),
              [mkTodo 1 "Learn Go" false])).
Proof.
  intros Hne. split; [|done].
  exists (Mem.maxID s),
    (mkTodo (GoInt.wrap (Mem.maxID s + 1)) (Task data) (Done data)).
  split.
  { split; [apply maxID_nonneg|]. split; [apply maxID_upper|apply maxID_attained]. }
  split; [done|]. split; [by rewrite CreateHandler_ok|].
  intros Hlt. simpl. apply wrap_in_range.
  pose proof (maxID_nonneg s). int_range.
Qed.

Lemma create_assigns_next_id_witness :
  Task (mkTodo 7 "Write tests" true) ≠ ""
  ∧ ∃ (m : Z) (new : Todo),
      (0 ≤ m ∧ (∀ t, t ∈ todos → ID t ≤ m)
       ∧ (m = 0 ∨ ∃ t, t ∈ todos ∧ ID t = m))
      ∧ new = mkTodo (GoInt.wrap (m + 1)) "Write tests" true
      ∧ Mem.CreateHandler
          (mkRequest (Err "no id") (Ok (mkTodo 7 "Write tests" true))) todos
        = (json_response StatusCreated (JSONTodo new), todos ++ [new])
      ∧ (m < GoInt.MaxInt → ID new = m + 1).
Proof.
  assert (H : Task (mkTodo 7 "Write tests" true) ≠ "") by (simpl; discriminate).
  split; [exact H|].
  exact (proj1 (create_assigns_next_id todos (Err "no id")
                  (mkTodo 7 "Write tests" true) H)).
Defined.

(** ** C2: identifiers are distinct and immutable *)

(** C2, as stated, fails once the identifiers run out of [int]: the service
    reaches a collection that holds the largest [int] alone; the next Create
    wraps around to the smallest [int], and the Create after it is assigned
    the smallest [int] again, so two stored items share an identifier. *)
Lemma reachable_duplicate_ids :
  let s := [mkTodo GoInt.MaxInt "x" false;
            mkTodo GoInt.MinInt "x" false;
            mkTodo GoInt.MinInt "x" false] in
  Mem.reachable s ∧ ¬ NoDup (ID <$> s).
Proof.
  split.
  - assert (Hmax : Mem.reachable [mkTodo GoInt.MaxInt "x" false]).
    { apply reachable_single. rewrite MaxInt_value. lia. }
    exact (reachable_serve_all
             [Mem.POST_todos (mkRequest (Err "no id") (Ok (mkTodo 0 "x" false)));
              Mem.POST_todos (mkRequest (Err "no id") (Ok (mkTodo 0 "x" false)))]
             _ Hmax).
  - intros Hnd. apply NoDup_cons_1_2, NoDup_cons_1_1 in Hnd.
    apply Hnd. left.
Qed.

(** C2, amended.  Every collection reached from the start-up collection by
    at most 2^63 - 3 calls (so that the identifiers stay within [int]) holds
    pairwise distinct identifiers; and on any collection no call changes the
    identifier of an item that stays: a Create appends, an Update keeps the
    identifier at every position, a Delete takes one position out. *)
Theorem ids_distinct_and_kept (cs : list Mem.Call) :
  (Z.of_nat (length cs) ≤ GoInt.MaxInt - 2 →
   NoDup (ID <$> (Mem.serve_all cs todos).2))
  ∧ (∀ (c : Mem.Call) (s : list Todo), Mem.ids_kept c s (Mem.serve c s).2).
Proof.
  split; [|intros c s; apply serve_ids_kept].
  intros Hlen. apply (serve_all_keeps_distinct cs todos 2); [lia|lia| |].
  - simpl. apply NoDup_cons. split; [|apply NoDup_singleton].
    intros H. by apply list_elem_of_singleton in H.
  - intros t Ht. repeat (apply elem_of_cons in Ht as [->|Ht]); simpl; try lia.
    by apply elem_of_nil in Ht.
Qed.

Lemma ids_distinct_and_kept_witness :
  let cs := [Mem.POST_todos (mkRequest (Err "no id") (Ok (mkTodo 0 "x" false)));
             Mem.DELETE_todo (mkRequest (Ok 1) (Err "EOF"));
             Mem.PUT_todo (mkRequest (Ok 2) (Ok (mkTodo 2 "y" true)))] in
  Z.of_nat (length cs) ≤ GoInt.MaxInt - 2
  ∧ NoDup (ID <$> (Mem.serve_all cs todos).2).
Proof.
  intros cs.
  assert (Hlen : Z.of_nat (length cs) ≤ GoInt.MaxInt - 2).
  { rewrite MaxInt_value. simpl. lia. }
  split; [exact Hlen|].
  exact (proj1 (ids_distinct_and_kept cs) Hlen).
Defined.

(** ** C3: identifiers over the lifetime of the collection *)

(** C3, as stated, fails when the item with the largest identifier is
    deleted: on the start-up collection a Create is assigned 3, the Delete
    of 3 succeeds, and the next Create is assigned 3 again. *)
Lemma create_reuses_deleted_id :
  let cs := [Mem.POST_todos (mkRequest (Err "no id") (Ok (mkTodo 0 "a" false)));
             Mem.DELETE_todo (mkRequest (Ok 3) (Err "EOF"));
             Mem.POST_todos (mkRequest (Err "no id") (Ok (mkTodo 0 "b" true)))] in
  (Mem.serve_all cs todos).1
    = [json_response StatusCreated (JSONTodo (mkTodo 3 "a" false));
       mkResponse StatusNoContent None NoBody;
       json_response StatusCreated (JSONTodo (mkTodo 3 "b" true))]
  ∧ Mem.assigned cs todos = [3; 3]
  ∧ ¬ NoDup (Mem.assigned cs todos).
Proof.
  split; [reflexivity|]. split; [reflexivity|].
  intros Hnd. apply NoDup_cons_1_1 in Hnd. apply Hnd. left.
Qed.

(** C3, amended.  In every sequence of calls, started on any in-memory
    collection, in which no Delete asks for the largest identifier stored at
    the time and during which the identifiers stay within [int], no two
    successful Creates are assigned the same identifier, and every identifier
    assigned lies above the largest identifier stored before the sequence. *)
Theorem creates_never_repeat (cs : list Mem.Call) (s : list Todo) :
  Mem.spares_max cs s →
  Mem.maxID s + Z.of_nat (length cs) ≤ GoInt.MaxInt →
  (∀ x, x ∈ Mem.assigned cs s → Mem.maxID s < x) ∧ NoDup (Mem.assigned cs s).
Proof.
  revert s. induction cs as [|c cs IH]; intros s Hsp Hlen.
  { split; [|constructor]. intros x Hx. by apply elem_of_nil in Hx. }
  rewrite assigned_cons. destruct Hsp as [Hc Hsp]. simpl in Hlen.
  pose proof (maxID_nonneg s) as H0.
  destruct (serve_cases c s)
    as [[Hs Hcr]|[(r & data & -> & _ & _ & Hs & Hcr)
       |[(r & k & old & data & -> & Hk & Hid & Hs & Hcr)
        |(r & k & old & -> & Hpid & Hk & Hs & Hcr)]]];
    rewrite Hcr; rewrite Hs in *.
  - apply IH; [done|lia].
  - rewrite add_no_overflow in * by int_range.
    destruct (IH _ Hsp) as [Habove Hnd].
    { rewrite maxID_app. simpl. lia. }
    rewrite maxID_app in Habove. simpl in Habove. split.
    + intros x Hx. apply elem_of_cons in Hx as [->|Hx]; [lia|].
      apply Habove in Hx. lia.
    + apply NoDup_cons. split; [|done]. intros Hx. apply Habove in Hx. lia.
  - assert (Hmax : Mem.maxID (<[k := data]> s) = Mem.maxID s).
    { apply maxID_same_ids. rewrite list_fmap_insert. apply list_insert_id.
      by rewrite list_lookup_fmap, Hk; simpl; rewrite Hid. }
    rewrite <- Hmax. apply IH; [done|lia].
  - assert (Hmax : Mem.maxID (delete k s) = Mem.maxID s).
    { apply (maxID_delete _ _ old); [done|]. intros Heq. apply Hc.
      by rewrite Hpid, Heq. }
    rewrite <- Hmax. apply IH; [done|lia].
Qed.

Lemma creates_never_repeat_witness :
  let cs := [Mem.POST_todos (mkRequest (Err "no id") (Ok (mkTodo 0 "a" false)));
             Mem.DELETE_todo (mkRequest (Ok 1) (Err "EOF"));
             Mem.POST_todos (mkRequest (Err "no id") (Ok (mkTodo 0 "b" true)))] in
  Mem.spares_max cs todos
  ∧ Mem.maxID todos + Z.of_nat (length cs) ≤ GoInt.MaxInt
  ∧ Mem.assigned cs todos = [3; 4]
  ∧ (∀ x, x ∈ Mem.assigned cs todos → Mem.maxID todos < x)
  ∧ NoDup (Mem.assigned cs todos).
Proof.
  intros cs.
  assert (Hsp : Mem.spares_max cs todos).
  { simpl. split; [exact I|]. split; [discriminate|]. split; exact I. }
  assert (Hlen : Mem.maxID todos + Z.of_nat (length cs) ≤ GoInt.MaxInt).
  { vm_compute. discriminate. }
  split; [exact Hsp|]. split; [exact Hlen|]. split; [reflexivity|].
  exact (creates_never_repeat cs todos Hsp Hlen).
Defined.

(** ** C4: Update of a missing item *)




(** ** C5: Update with mismatched identifiers *)

(** C5. An Update whose body identifier differs from its path identifier
    answers 409 and leaves the collection (the table, in the table-backed
    handler, whose driver is not called) as it was. *)
Theorem update_mismatch_conflict (s : list Todo) (id : Z) (data : Todo) :
  id ≠ ID data →
  (∃ resp, Mem.UpdateHandler (mkRequest (Ok id) (Ok data)) s = (resp, s)
           ∧ Status resp = StatusConflict)
  ∧ (∀ (DB : Type) (Exec : Table.Stmt → DB → result Table.SqlResult * DB)
       (db : DB),
       ∃ resp, Table.UpdateHandler Exec (mkRequest (Ok id) (Ok data)) db
               = (resp, db)
               ∧ Status resp = StatusConflict).
Proof.
  intros Hne. split.
  - eexists. by rewrite UpdateHandler_conflict.
  - intros DB Exec db. unfold Table.UpdateHandler. simpl.
    destruct (Z.eqb_spec id (ID data)); [done|]. simpl. by eexists.
Qed.

Lemma update_mismatch_conflict_witness :
  1 ≠ ID (mkTodo 2 "Learn Go" true)
  ∧ ∃ resp, Mem.UpdateHandler
              (mkRequest (Ok 1) (Ok (mkTodo 2 "Learn Go" true))) todos
            = (resp, todos)
            ∧ Status resp = StatusConflict.
Proof.
  assert (H : 1 ≠ ID (mkTodo 2 "Learn Go" true)) by (simpl; lia).
  split; [exact H|].
  exact (proj1 (update_mismatch_conflict todos 1 (mkTodo 2 "Learn Go" true) H)).
Defined.

(** ** C6: the effect of Update *)

(** C6. On a collection holding an item with identifier [i], a successful
    Update of [i] overwrites the first item with that identifier by the item
    of the body, whose identifier is [i]; every other position, the length
    and the order of the collection are unchanged, and the response carries
    the item now stored. *)
Theorem update_replaces_in_place (s : list Todo) (i : Z) (data : Todo) :
  ID data = i →
  (∃ t, t ∈ s ∧ ID t = i) →
  ∃ (k : nat) (old : Todo) (s' : list Todo),
    Mem.UpdateHandler (mkRequest (Ok i) (Ok data)) s
      = (json_response StatusOK (JSONTodo data), s')
    ∧ s !! k = Some old ∧ ID old = i
    ∧ (∀ j u, s !! j = Some u → (j < k)%nat → ID u ≠ i)
    ∧ s' !! k = Some data ∧ data = mkTodo i (Task data) (Done data)
    ∧ (∀ j, j ≠ k → s' !! j = s !! j)
    ∧ length s' = length s
    ∧ ID <$> s' = ID <$> s.
Proof.
  intros <- Hex. apply stored_list_find in Hex as [[k old] Hf].
  exists k, old, (<[k := data]> s).
  rewrite (UpdateHandler_hit _ _ _ _ Hf).
  apply list_find_Some in Hf as (Hk & Hid & Hfirst).
  pose proof (lookup_lt_Some _ _ _ Hk) as Hlt.
  split; [done|]. split; [done|]. split; [done|]. split.
  { intros j u Hj Hjk. by eapply Hfirst. }
  split. { by rewrite list_lookup_insert_eq. }
  split. { by destruct data. }
  split. { intros j Hj. by rewrite list_lookup_insert_ne. }
  split. { by rewrite length_insert. }
  rewrite list_fmap_insert. apply list_insert_id.
  by rewrite list_lookup_fmap, Hk; simpl; rewrite Hid.
Qed.

Lemma update_replaces_in_place_witness :
  ID (mkTodo 2 "Ship it" true) = 2
  ∧ (∃ t, t ∈ todos ∧ ID t = 2)
  ∧ ∃ (k : nat) (old : Todo) (s' : list Todo),
      Mem.UpdateHandler (mkRequest (Ok 2) (Ok (mkTodo 2 "Ship it" true))) todos
        = (json_response StatusOK (JSONTodo (mkTodo 2 "Ship it" true)), s')
      ∧ todos !! k = Some old ∧ ID old = 2
      ∧ (∀ j u, todos !! j = Some u → (j < k)%nat → ID u ≠ 2)
      ∧ s' !! k = Some (mkTodo 2 "Ship it" true)
      ∧ mkTodo 2 "Ship it" true = mkTodo 2 "Ship it" true
      ∧ (∀ j, j ≠ k → s' !! j = todos !! j)
      ∧ length s' = length todos
      ∧ ID <$> s' = ID <$> todos.
Proof.
  assert (Hex : ∃ t, t ∈ todos ∧ ID t = 2).
  { exists (mkTodo 2 "Build a simple API" false). split; [|reflexivity].
    apply elem_of_cons. right. apply elem_of_cons. by left. }
  split; [reflexivity|]. split; [exact Hex|].
  exact (update_replaces_in_place todos 2 (mkTodo 2 "Ship it" true) eq_refl Hex).
Defined.

(** ** C7: Delete twice *)

(** C7, as stated, fails on a collection the service reaches once the
    identifiers have run out of [int], where two Creates in a row were both
    assigned the smallest [int]: the first Delete of that identifier answers
    204 and removes the first of the two items, the second Delete answers 204
    again instead of 404 and changes the collection once more, and a Read
    after the first Delete answers 200. *)
Lemma delete_twice_on_duplicates :
  let top := mkTodo GoInt.MaxInt "x" false in
  let low := mkTodo GoInt.MinInt "x" false in
  let r := mkRequest (Ok GoInt.MinInt) (Err "EOF") in
  Mem.reachable [top; low; low]
  ∧ Mem.DeleteHandler r [top; low; low]
    = (mkResponse StatusNoContent None NoBody, [top; low])
  ∧ Mem.DeleteHandler r [top; low]
    = (mkResponse StatusNoContent None NoBody, [top])
  ∧ Mem.ReadHandler r [top; low]
    = (json_response StatusOK (JSONTodo low), [top; low])
  ∧ StatusNoContent ≠ StatusNotFound.
Proof.
  simpl. split; [exact reachable_MinInt_twice|]. by repeat split.
Qed.

(** C7, amended.  On a collection holding exactly one item with identifier
    [i], a Delete of [i] answers 204 and removes that item; a second Delete
    of [i] then answers 404 and leaves the collection as the first Delete
    left it, and a Read of [i] answers 404. *)
Theorem delete_then_delete (s : list Todo) (i : Z) (body : result Todo) :
  length (filter (λ t, ID t = i) s) = 1%nat →
  ∃ (k : nat) (t : Todo) (s1 : list Todo),
    s !! k = Some t ∧ ID t = i ∧ s1 = delete k s
    ∧ Mem.DeleteHandler (mkRequest (Ok i) body) s
      = (mkResponse StatusNoContent None NoBody, s1)
    ∧ (∀ u, u ∈ s1 → ID u ≠ i)
    ∧ Mem.DeleteHandler (mkRequest (Ok i) body) s1
      = (http_Error "Todo not found" StatusNotFound, s1)
    ∧ Mem.ReadHandler (mkRequest (Ok i) body) s1
      = (http_Error "Todo not found" StatusNotFound, s1).
Proof.
  intros Hone.
  destruct (list_find (λ t, ID t = i) s) as [[k t]|] eqn:Hf.
  - exists k, t, (delete k s).
    pose proof (DeleteHandler_hit _ _ body _ _ Hf) as Hdel.
    apply list_find_Some in Hf as (Hk & Hid & _).
    pose proof (delete_only_occurrence _ _ _ _ Hone Hk Hid) as Hgone.
    split; [done|]. split; [done|]. split; [done|]. split; [done|].
    split; [by apply not_stored_list_find|].
    split; [by apply DeleteHandler_miss|by apply ReadHandler_miss].
  - destruct (filter (λ t, ID t = i) s) as [|x l] eqn:Hfl; [done|].
    assert (Hx : x ∈ filter (λ t, ID t = i) s) by (rewrite Hfl; left).
    apply list_elem_of_filter in Hx as [Hid Hx].
    pose proof (list_find_elem_of (λ t, ID t = i) s x Hx Hid) as [? Hsome].
    congruence.
Qed.

Lemma delete_then_delete_witness :
  length (filter (λ t, ID t = 2) todos) = 1%nat
  ∧ ∃ (k : nat) (t : Todo) (s1 : list Todo),
      todos !! k = Some t ∧ ID t = 2 ∧ s1 = delete k todos
      ∧ Mem.DeleteHandler (mkRequest (Ok 2) (Err "EOF")) todos
        = (mkResponse StatusNoContent None NoBody, s1)
      ∧ (∀ u, u ∈ s1 → ID u ≠ 2)
      ∧ Mem.DeleteHandler (mkRequest (Ok 2) (Err "EOF")) s1
        = (http_Error "Todo not found" StatusNotFound, s1)
      ∧ Mem.ReadHandler (mkRequest (Ok 2) (Err "EOF")) s1
        = (http_Error "Todo not found" StatusNotFound, s1).
Proof.
  split; [reflexivity|].
  exact (delete_then_delete todos 2 (Err "EOF") eq_refl).
Defined.

(** ** C8: List and Read after Creates *)

(** C8. Starting from the empty collection, [N] successful Creates (for any
    [N] that a slice can hold: [len(todos)] is an [int]) are answered 201 with
    the items numbered 1 to [N]; List then answers 200 with exactly those [N]
    items in creation order under the JSON content type, and a Read of each
    assigned identifier answers 200 with the item created under it. *)
Theorem list_after_creates (ps : list (result Z * Todo)) :
  Forall (λ p, Task p.2 ≠ "") ps →
  Z.of_nat (length ps) ≤ GoInt.MaxInt →
  let cs := (λ p, Mem.POST_todos (mkRequest p.1 (Ok p.2))) <$> ps in
  let items := numbered ps in
  Mem.serve_all cs []
    = ((λ t, json_response StatusCreated (JSONTodo t)) <$> items, items)
  ∧ length items = length ps
  ∧ Mem.ListHandler items
    = (mkResponse StatusOK (Some "application/json") (JSONTodos items), items)
  ∧ ∀ k t body,
      items !! k = Some t →
      Mem.ReadHandler (mkRequest (Ok (ID t)) body) items
      = (json_response StatusOK (JSONTodo t), items).
Proof.
  intros Htask Hlen. simpl.
  split; [|split; [|split]].
  - induction ps as [|p ps IH] using rev_ind; [done|].
    apply Forall_app in Htask as [Htask Hp]. rewrite Forall_singleton in Hp.
    rewrite length_app in Hlen. simpl in Hlen.
    rewrite fmap_app, serve_all_app, IH by (done || lia). simpl.
    rewrite CreateHandler_ok by done. simpl.
    rewrite maxID_numbered, add_no_overflow, numbered_snoc, fmap_app; [done|].
    int_range.
  - unfold numbered. by rewrite length_imap.
  - done.
  - intros k t body Hk. apply (ReadHandler_hit _ _ _ k).
    apply list_find_Some. split; [done|]. split; [done|].
    intros j y Hj Hjk. apply numbered_lookup in Hk, Hj. lia.
Qed.

Lemma list_after_creates_witness :
  let ps := [(Err "no id", mkTodo 0 "Learn Go" false);
             (Err "no id", mkTodo 9 "Write tests" true)] in
  Forall (λ p : result Z * Todo, Task p.2 ≠ "") ps
  ∧ Z.of_nat (length ps) ≤ GoInt.MaxInt
  ∧ Mem.serve_all
      ((λ p, Mem.POST_todos (mkRequest p.1 (Ok p.2))) <$> ps) []
    = ([json_response StatusCreated (JSONTodo (mkTodo 1 "Learn Go" false));
        json_response StatusCreated (JSONTodo (mkTodo 2 "Write tests" true))],
       [mkTodo 1 "Learn Go" false; mkTodo 2 "Write tests" true]).
Proof.
  intros ps.
  assert (Htask : Forall (λ p : result Z * Todo, Task p.2 ≠ "") ps).
  { repeat constructor; simpl; discriminate. }
  assert (Hlen : Z.of_nat (length ps) ≤ GoInt.MaxInt).
  { rewrite MaxInt_value. simpl. lia. }
  split; [exact Htask|]. split; [exact Hlen|].
  exact (proj1 (list_after_creates ps Htask Hlen)).
Defined.

(** ** C9: Update does not validate the task *)




(** ** C10: the collection at start-up *)

(** C10. At start-up the in-memory collection holds exactly two items, with
    identifiers 1 and 2, and the first successful Create served on it is
    assigned identifier 3. *)
Theorem startup_create_gets_3 :
  length todos = 2%nat
  ∧ ID <$> todos = [1; 2]
  ∧ ∀ pid data, Task data ≠ "" →
      Mem.CreateHandler (mkRequest pid (Ok data)) todos
      = (json_response StatusCreated
           (JSONTodo (mkTodo 3 (Task data) (Done data))),
         todos ++ [mkTodo 3 (Task data) (Done data)]).
Proof.
  split; [reflexivity|]. split; [reflexivity|]. intros pid data Hne.
  rewrite CreateHandler_ok by done.
  assert (Hmax : Mem.maxID todos = 2) by reflexivity.
  by rewrite Hmax, add_no_overflow by int_range.
Qed.

Lemma startup_create_gets_3_witness :
  Task (mkTodo 0 "Learn Go" false) ≠ ""
  ∧ Mem.CreateHandler (mkRequest (Err "no id") (Ok (mkTodo 0 "Learn Go" false)))
      todos
    = (json_response StatusCreated (JSONTodo (mkTodo 3 "Learn Go" false)),
       todos ++ [mkTodo 3 "Learn Go" false]).
Proof.
  assert (H : Task (mkTodo 0 "Learn Go" false) ≠ "") by (simpl; discriminate).
  split; [exact H|].
  exact (proj2 (proj2 startup_create_gets_3) (Err "no id")
           (mkTodo 0 "Learn Go" false) H).
Defined.

(** * Further properties of the handlers *)

(** ** The in-memory handlers in terms of the first item with an identifier *)

(** Every handler, rewritten over the position of the first item that
    carries the identifier asked for. *)
Lemma serve_spec c s :
  Mem.serve c s =
  match c with
  | Mem.GET_todos => (json_response StatusOK (JSONTodos s), s)
  | Mem.GET_todo r =>
      match PathID r with
      | Err _ =>
          (http_Error "Invalid ID! ID must be an integer" StatusBadRequest, s)
      | Ok id =>
          match list_find (λ t, ID t = id) s with
          | Some (_, t) => (json_response StatusOK (JSONTodo t), s)
          | None => (http_Error "Todo not found" StatusNotFound, s)
          end
      end
  | Mem.POST_todos r =>
      match Body r with
      | Err msg => (http_Error msg StatusBadRequest, s)
      | Ok data =>
          if decide (Task data = "")
          then (http_Error "Task is empty" StatusBadRequest, s)
          else
            let new :=
              mkTodo (GoInt.add (Mem.maxID s) 1) (Task data) (Done data) in
            (json_response StatusCreated (JSONTodo new), s ++ [new])
      end
  | Mem.PUT_todo r =>
      match PathID r with
      | Err _ =>
          (http_Error "Invalid ID! ID must be an integer" StatusBadRequest, s)
      | Ok id =>
          match Body r with
          | Err msg => (http_Error msg StatusBadRequest, s)
          | Ok data =>
              if decide (id = ID data)
              then
                match list_find (λ t, ID t = id) s with
                | Some (k, _) =>
                    (json_response StatusOK (JSONTodo data), <[k := data]> s)
                | None => (http_Error "Todo not found" StatusNotFound, s)
                end
              else
                (http_Error "Id in url doesn't match the id in the body"
                   StatusConflict, s)
          end
      end
  | Mem.DELETE_todo r =>
      match PathID r with
      | Err _ =>
          (http_Error "Invalid ID! ID must be an integer" StatusBadRequest, s)
      | Ok id =>
          match list_find (λ t, ID t = id) s with
          | Some (k, _) =>
              (mkResponse StatusNoContent None NoBody, delete k s)
          | None => (http_Error "Todo not found" StatusNotFound, s)
          end
      end
  end.
Proof.
  destruct c as [|r|r|r|r]; simpl.
  - done.
  - destruct r as [[id|msg] body]; simpl; [|done].
    destruct (list_find (λ t, ID t = id) s) as [[k t]|] eqn:Hf.
    + by rewrite (ReadHandler_hit _ _ _ _ _ Hf).
    + by rewrite (ReadHandler_miss _ _ _ Hf).
  - destruct r as [pid [data|msg]]; simpl; [|done].
    destruct (decide (Task data = "")) as [He|Hne].
    + unfold Mem.CreateHandler. simpl. by rewrite He.
    + by rewrite CreateHandler_ok.
  - destruct r as [[id|msg] [data|msg']]; simpl; try done.
    destruct (decide (id = ID data)) as [->|Hne].
    + destruct (list_find (λ t, ID t = ID data) s) as [[k t]|] eqn:Hf.
      * by rewrite (UpdateHandler_hit _ _ _ _ Hf).
      * by rewrite (UpdateHandler_miss _ _ Hf).
    + by rewrite UpdateHandler_conflict.
  - destruct r as [[id|msg] body]; simpl; [|done].
    destruct (list_find (λ t, ID t = id) s) as [[k t]|] eqn:Hf.
    + by rewrite (DeleteHandler_hit _ _ _ _ _ Hf).
    + by rewrite (DeleteHandler_miss _ _ _ Hf).
Qed.

(** Splits a goal about [Mem.serve c s] into the outcomes of [serve_spec]. *)
Ltac serve_outcomes c s :=
  rewrite ?(serve_spec c s); destruct c as [|[[?|?] ?]|[? [?|?]]|[[?|?] [?|?]]|[[?|?] ?]];
  simpl;
  repeat match goal with
    | |- context [decide ?P] => destruct (decide P); simpl
    | |- context [list_find ?P ?l] =>
        let Hf := fresh "Hf" in
        destruct (list_find P l) as [[? ?]|] eqn:Hf; simpl
    end.

(** ** The search loop of [ReadHandler] under the three updates *)

Lemma found_Some id s t : Mem.found id s = Some t → t ∈ s ∧ ID t = id.
Proof.
  induction s as [|u s IH]; simpl; [done|].
  destruct (Z.eqb_spec (ID u) id) as [Heq|Hne].
  - intros [= ->]. split; [left|done].
  - intros Hf. destruct (IH Hf). split; [by right|done].
Qed.

Lemma found_None id s : Mem.found id s = None ↔ ∀ t, t ∈ s → ID t ≠ id.
Proof. by rewrite found_list_find, fmap_None, not_stored_list_find. Qed.

Lemma found_app id s t :
  Mem.found id (s ++ [t]) =
  match Mem.found id s with
  | Some u => Some u
  | None => if ID t =? id then Some t else None
  end.
Proof.
  induction s as [|u s IH]; simpl; [done|].
  by destruct (ID u =? id).
Qed.

Lemma found_insert_other id s k old data :
  s !! k = Some old → ID old ≠ id → ID data ≠ id →
  Mem.found id (<[k := data]> s) = Mem.found id s.
Proof.
  revert k. induction s as [|u s IH]; intros [|k] Hk Hold Hdata; simpl in *;
    try done.
  - injection Hk as ->.
    destruct (Z.eqb_spec (ID data) id), (Z.eqb_spec (ID old) id); done.
  - destruct (ID u =? id); [done|]. by apply IH.
Qed.

Lemma found_insert_first i s k old data :
  list_find (λ t, ID t = i) s = Some (k, old) → ID data = i →
  Mem.found i (<[k := data]> s) = Some data.
Proof.
  revert k. induction s as [|u s IH]; intros k Hf Hdata; simpl in *; [done|].
  destruct (decide (ID u = i)) as [Hu|Hu].
  - injection Hf as <- <-. simpl. by rewrite Hdata, Z.eqb_refl.
  - destruct (list_find _ s) as [[k' old']|] eqn:Hs; [|done].
    injection Hf as <- <-. simpl.
    destruct (Z.eqb_spec (ID u) i); [done|]. by apply IH.
Qed.

Lemma found_delete_other id s k old :
  s !! k = Some old → ID old ≠ id →
  Mem.found id (delete k s) = Mem.found id s.
Proof.
  revert k. induction s as [|u s IH]; intros [|k] Hk Hold; simpl in *;
    try done.
  - injection Hk as ->. by destruct (Z.eqb_spec (ID old) id).
  - destruct (ID u =? id); [done|]. by apply IH.
Qed.

(** ** Responses of the in-memory handlers *)

(** X1. A call that is answered with an error status (400 or above) leaves
    the collection as it was, and so do List and Read whatever they answer. *)
Theorem rejected_calls_change_nothing c s :
  (400 ≤ Status (Mem.serve c s).1 → (Mem.serve c s).2 = s)
  ∧ match c with
    | Mem.GET_todos | Mem.GET_todo _ => (Mem.serve c s).2 = s
    | _ => True
    end.
Proof.
  split.
  - serve_outcomes c s; try done;
      unfold StatusCreated, StatusOK, StatusNoContent; lia.
  - serve_outcomes c s; done.
Qed.

Lemma rejected_calls_change_nothing_witness :
  let c := Mem.PUT_todo (mkRequest (Ok 7) (Ok (mkTodo 7 "Ship it" true))) in
  400 ≤ Status (Mem.serve c todos).1 ∧ (Mem.serve c todos).2 = todos.
Proof.
  intros c.
  assert (H : 400 ≤ Status (Mem.serve c todos).1) by (vm_compute; discriminate).
  split; [exact H|].
  exact (proj1 (rejected_calls_change_nothing c todos) H).
Defined.

(** X2. The statuses each route can answer with, on every collection: List
    only 200; Read 200, 400 or 404; Create 201 or 400; Update 200, 400, 404 or
    409; Delete 204, 400 or 404 (never 500).  The content type follows the
    status: JSON below 400, none for 204, plain text from 400 on. *)
Theorem statuses_by_route c s :
  let resp := (Mem.serve c s).1 in
  match c with
  | Mem.GET_todos => Status resp = 200
  | Mem.GET_todo _ => Status resp ∈ [200; 400; 404]
  | Mem.POST_todos _ => Status resp ∈ [201; 400]
  | Mem.PUT_todo _ => Status resp ∈ [200; 400; 404; 409]
  | Mem.DELETE_todo _ => Status resp ∈ [204; 400; 404]
  end
  ∧ ContentType resp =
    (if Status resp =? 204 then None
     else if Status resp <? 400 then Some "application/json"
     else Some "text/plain; charset=utf-8").
Proof.
  serve_outcomes c s; (split; [|done]);
    first [done | repeat first [by left | right]].
Qed.

(** X3. A call is answered 400 exactly when the request itself is malformed,
    whatever the collection holds: a path identifier that is not an integer
    (Read, Update, Delete), a body that does not decode (Create, Update), or
    an empty task (Create only). *)
Theorem bad_request_iff_malformed c s :
  Status (Mem.serve c s).1 = StatusBadRequest ↔
  match c with
  | Mem.GET_todos => False
  | Mem.GET_todo r | Mem.DELETE_todo r => ∃ msg, PathID r = Err msg
  | Mem.POST_todos r =>
      (∃ msg, Body r = Err msg) ∨ (∃ data, Body r = Ok data ∧ Task data = "")
  | Mem.PUT_todo r => (∃ msg, PathID r = Err msg) ∨ (∃ msg, Body r = Err msg)
  end.
Proof.
  serve_outcomes c s; split; try done; try (intros _; by eauto).
  all: try (by intros [? ?]); try (by intros [[? ?]|[? ?]]).
  all: try (intros [[? ?]|(? & [= <-] & ?)]; done).
Qed.

(** X4. Read answers 200 with an item exactly when that item is the first
    one, in the order of the collection, that carries the identifier asked
    for, and 404 exactly when no stored item carries it. *)
Theorem read_first_stored s i body t :
  (Mem.ReadHandler (mkRequest (Ok i) body) s
     = (json_response StatusOK (JSONTodo t), s)
   ↔ ∃ k, s !! k = Some t ∧ ID t = i
          ∧ ∀ j u, s !! j = Some u → (j < k)%nat → ID u ≠ i)
  ∧ (Mem.ReadHandler (mkRequest (Ok i) body) s
       = (http_Error "Todo not found" StatusNotFound, s)
     ↔ ∀ u, u ∈ s → ID u ≠ i).
Proof.
  pose proof (serve_spec (Mem.GET_todo (mkRequest (Ok i) body)) s) as Hspec.
  simpl in Hspec. rewrite Hspec. clear Hspec.
  destruct (list_find (λ t, ID t = i) s) as [[k u]|] eqn:Hf.
  - apply list_find_Some in Hf as (Hk & Hid & Hfirst). split; split.
    + intros [= <-]. by exists k.
    + intros (k' & Hk' & Hid' & Hfirst'). f_equal. f_equal. f_equal.
      destruct (Nat.lt_trichotomy k k') as [Hlt|[->|Hlt]].
      * by apply Hfirst' in Hk.
      * congruence.
      * by apply Hfirst in Hk'.
    + done.
    + intros Hnone. apply list_elem_of_lookup_2 in Hk. by apply Hnone in Hk.
  - split; split; try done.
    + intros (k & Hk & Hid & _).
      pose proof (proj2 (not_stored_list_find i s) Hf) as Hnone.
      apply list_elem_of_lookup_2 in Hk. by apply Hnone in Hk.
    + intros _. by apply not_stored_list_find.
Qed.

(** ** How the in-memory handlers compose *)

(** Below the largest [int], the identifier Create assigns is positive and
    above every stored identifier. *)
Lemma next_id_above s :
  Mem.maxID s < GoInt.MaxInt →
  GoInt.add (Mem.maxID s) 1 = Mem.maxID s + 1
  ∧ 0 < Mem.maxID s + 1
  ∧ ∀ t, t ∈ s → ID t < Mem.maxID s + 1.
Proof.
  intros Hlt. pose proof (maxID_nonneg s) as H0.
  split; [apply add_no_overflow; int_range|]. split; [lia|].
  intros t Ht. apply maxID_upper in Ht. lia.
Qed.

(** X5. Create then Read: while the largest stored identifier is below the
    largest [int], a Read of the identifier a successful Create answered with
    returns the item just created; and on every collection a Create leaves
    the answer of Read unchanged for each identifier stored before. *)
Theorem create_then_read s pid data body :
  Task data ≠ "" →
  ∃ new,
    Mem.CreateHandler (mkRequest pid (Ok data)) s
      = (json_response StatusCreated (JSONTodo new), s ++ [new])
    ∧ (Mem.maxID s < GoInt.MaxInt →
       Mem.ReadHandler (mkRequest (Ok (ID new)) body) (s ++ [new])
       = (json_response StatusOK (JSONTodo new), s ++ [new]))
    ∧ (∀ j, (∃ t, t ∈ s ∧ ID t = j) →
       (Mem.ReadHandler (mkRequest (Ok j) body) (s ++ [new])).1
       = (Mem.ReadHandler (mkRequest (Ok j) body) s).1).
Proof.
  intros Hne. eexists. split; [by rewrite CreateHandler_ok|]. split.
  - intros Hlt. destruct (next_id_above s Hlt) as (Hadd & _ & Habove).
    unfold Mem.ReadHandler. simpl. rewrite found_app.
    destruct (Mem.found _ s) as [u|] eqn:Hu.
    + apply found_Some in Hu as [Hu Hid]. apply Habove in Hu. lia.
    + by rewrite Z.eqb_refl.
  - intros j (t & Ht & Hid). unfold Mem.ReadHandler. simpl. rewrite found_app.
    destruct (Mem.found j s) as [u|] eqn:Hu; [done|].
    pose proof (proj1 (found_None j s) Hu t Ht). done.
Qed.

Lemma create_then_read_witness :
  Task (mkTodo 0 "Write tests" false) ≠ ""
  ∧ Mem.maxID todos < GoInt.MaxInt
  ∧ Mem.ReadHandler (mkRequest (Ok 3) (Err "EOF"))
      (todos ++ [mkTodo 3 "Write tests" false])
    = (json_response StatusOK (JSONTodo (mkTodo 3 "Write tests" false)),
       todos ++ [mkTodo 3 "Write tests" false]).
Proof.
  assert (H : Task (mkTodo 0 "Write tests" false) ≠ "") by (simpl; discriminate).
  assert (Hlt : Mem.maxID todos < GoInt.MaxInt) by (vm_compute; reflexivity).
  split; [exact H|]. split; [exact Hlt|].
  destruct (create_then_read todos (Err "no id") (mkTodo 0 "Write tests" false)
              (Err "EOF") H) as (new & Hc & Hread & _).
  injection Hc as <-. exact (Hread Hlt).
Defined.

(** X6. Update then Read: after a successful Update of a stored identifier
    [i], a Read of [i] returns the item of the Update's body, and the answer
    of Read for every other identifier is what it was before. *)
Theorem update_then_read s i data body :
  ID data = i →
  (∃ t, t ∈ s ∧ ID t = i) →
  let s' := (Mem.UpdateHandler (mkRequest (Ok i) (Ok data)) s).2 in
  Mem.ReadHandler (mkRequest (Ok i) body) s'
    = (json_response StatusOK (JSONTodo data), s')
  ∧ ∀ j, j ≠ i →
      (Mem.ReadHandler (mkRequest (Ok j) body) s').1
      = (Mem.ReadHandler (mkRequest (Ok j) body) s).1.
Proof.
  intros <- Hex. apply stored_list_find in Hex as [[k old] Hf].
  rewrite (UpdateHandler_hit _ _ _ _ Hf). simpl. unfold Mem.ReadHandler. simpl.
  split.
  - by rewrite (found_insert_first _ _ _ _ _ Hf).
  - intros j Hj. apply list_find_Some in Hf as (Hk & Hid & _).
    rewrite (found_insert_other j s k old data); [|done|lia|lia].
    by destruct (Mem.found j s).
Qed.

Lemma update_then_read_witness :
  ID (mkTodo 2 "Ship it" true) = 2
  ∧ (∃ t, t ∈ todos ∧ ID t = 2)
  ∧ Mem.ReadHandler (mkRequest (Ok 2) (Err "EOF"))
      (Mem.UpdateHandler (mkRequest (Ok 2) (Ok (mkTodo 2 "Ship it" true)))
         todos).2
    = (json_response StatusOK (JSONTodo (mkTodo 2 "Ship it" true)),
       (Mem.UpdateHandler (mkRequest (Ok 2) (Ok (mkTodo 2 "Ship it" true)))
          todos).2).
Proof.
  assert (Hex : ∃ t, t ∈ todos ∧ ID t = 2).
  { exists (mkTodo 2 "Build a simple API" false). split; [|reflexivity].
    apply elem_of_cons. right. apply elem_of_cons. by left. }
  split; [reflexivity|]. split; [exact Hex|].
  exact (proj1 (update_then_read todos 2 (mkTodo 2 "Ship it" true) (Err "EOF")
                  eq_refl Hex)).
Defined.

(** X7. Update is idempotent: serving the same Update a second time gives
    the same response and leaves the same collection as serving it once,
    for every request and every collection. *)
Theorem update_idempotent r s :
  Mem.UpdateHandler r (Mem.UpdateHandler r s).2 = Mem.UpdateHandler r s.
Proof.
  pose proof (serve_spec (Mem.PUT_todo r)) as Hspec. simpl in Hspec.
  rewrite (Hspec s). destruct r as [[id|msg] [data|msg']]; simpl; try done.
  destruct (decide (id = ID data)) as [->|Hne]; [|by rewrite UpdateHandler_conflict].
  destruct (list_find (λ t, ID t = ID data) s) as [[k old]|] eqn:Hf; simpl.
  - assert (Hf' : list_find (λ t, ID t = ID data) (<[k := data]> s)
                  = Some (k, data)).
    { apply list_find_Some in Hf as (Hk & Hid & Hfirst).
      pose proof (lookup_lt_Some _ _ _ Hk) as Hlt.
      apply list_find_Some. split; [by rewrite list_lookup_insert_eq|].
      split; [done|]. intros j u Hj Hjk.
      rewrite list_lookup_insert_ne in Hj by lia. by eapply Hfirst. }
    rewrite (UpdateHandler_hit _ _ _ _ Hf'). by rewrite list_insert_insert_eq.
  - by rewrite (UpdateHandler_miss _ _ Hf).
Qed.

(** X8. Delete takes out one item and nothing else: after a successful
    Delete of a stored identifier [i] the collection is one item shorter, one
    item with identifier [i] fewer, the items with other identifiers are the
    same in the same order, and the answer of Read for every other identifier
    is what it was before. *)
Theorem delete_takes_one s i body :
  (∃ t, t ∈ s ∧ ID t = i) →
  ∃ s',
    Mem.DeleteHandler (mkRequest (Ok i) body) s
      = (mkResponse StatusNoContent None NoBody, s')
    ∧ length s = S (length s')
    ∧ length (filter (λ t, ID t = i) s)
      = S (length (filter (λ t, ID t = i) s'))
    ∧ filter (λ t, ID t ≠ i) s' = filter (λ t, ID t ≠ i) s
    ∧ ∀ j, j ≠ i →
        (Mem.ReadHandler (mkRequest (Ok j) body) s').1
        = (Mem.ReadHandler (mkRequest (Ok j) body) s).1.
Proof.
  intros Hex. apply stored_list_find in Hex as [[k old] Hf].
  exists (delete k s). rewrite (DeleteHandler_hit _ _ _ _ _ Hf).
  apply list_find_Some in Hf as (Hk & Hid & _).
  pose proof (lookup_lt_Some _ _ _ Hk) as Hlt.
  assert (Hsplit : s = take k s ++ old :: drop (S k) s).
  { by rewrite <- (take_drop_middle s k old) at 1. }
  split; [done|]. split; [rewrite length_delete by done; lia|].
  rewrite delete_take_drop. split; [|split].
  - rewrite Hsplit at 1. rewrite !filter_app, filter_cons_True by done.
    rewrite !length_app. simpl. lia.
  - rewrite Hsplit at 3. rewrite !filter_app, filter_cons_False; [done|].
    by intros Hn.
  - intros j Hj. unfold Mem.ReadHandler. simpl.
    rewrite <- delete_take_drop.
    rewrite (found_delete_other j s k old); [|done|lia].
    by destruct (Mem.found j s).
Qed.

Lemma delete_takes_one_witness :
  (∃ t, t ∈ todos ∧ ID t = 1)
  ∧ ∃ s',
      Mem.DeleteHandler (mkRequest (Ok 1) (Err "EOF")) todos
        = (mkResponse StatusNoContent None NoBody, s')
      ∧ length todos = S (length s').
Proof.
  assert (Hex : ∃ t, t ∈ todos ∧ ID t = 1).
  { exists (mkTodo 1 "Learn Go basics" true). split; [|reflexivity].
    apply elem_of_cons. by left. }
  split; [exact Hex|].
  destruct (delete_takes_one todos 1 (Err "EOF") Hex) as (s' & Hd & Hlen & _).
  exists s'. split; [exact Hd|exact Hlen].
Defined.

(** X9. Create then Delete: while the largest stored identifier is below the
    largest [int], deleting the identifier a successful Create answered with
    gives back exactly the collection from before the Create. *)
Theorem create_then_delete_restores s pid data body :
  Task data ≠ "" →
  Mem.maxID s < GoInt.MaxInt →
  ∃ new s1,
    Mem.CreateHandler (mkRequest pid (Ok data)) s
      = (json_response StatusCreated (JSONTodo new), s1)
    ∧ Mem.DeleteHandler (mkRequest (Ok (ID new)) body) s1
      = (mkResponse StatusNoContent None NoBody, s).
Proof.
  intros Hne Hlt. destruct (next_id_above s Hlt) as (Hadd & _ & Habove).
  eexists _, _. split; [by rewrite CreateHandler_ok|]. simpl.
  rewrite (DeleteHandler_hit _ _ _ (length s)
             (mkTodo (GoInt.add (Mem.maxID s) 1) (Task data) (Done data))).
  - by rewrite (delete_middle s []), app_nil_r.
  - apply list_find_Some. split; [by rewrite list_lookup_middle|].
    split; [done|]. intros j u Hj Hjk. simpl.
    rewrite lookup_app_l in Hj by done.
    apply list_elem_of_lookup_2, Habove in Hj. lia.
Qed.

Lemma create_then_delete_restores_witness :
  Task (mkTodo 0 "Write tests" false) ≠ ""
  ∧ Mem.maxID todos < GoInt.MaxInt
  ∧ ∃ new s1,
      Mem.CreateHandler
        (mkRequest (Err "no id") (Ok (mkTodo 0 "Write tests" false))) todos
        = (json_response StatusCreated (JSONTodo new), s1)
      ∧ Mem.DeleteHandler (mkRequest (Ok (ID new)) (Err "EOF")) s1
        = (mkResponse StatusNoContent None NoBody, todos).
Proof.
  assert (H : Task (mkTodo 0 "Write tests" false) ≠ "") by (simpl; discriminate).
  assert (Hlt : Mem.maxID todos < GoInt.MaxInt) by (vm_compute; reflexivity).
  split; [exact H|]. split; [exact Hlt|].
  exact (create_then_delete_restores todos (Err "no id")
           (mkTodo 0 "Write tests" false) (Err "EOF") H Hlt).
Defined.

(** ** Invariants of the in-memory collection *)

(** X10. Distinct identifiers stay distinct under every call, from any
    collection whose largest identifier is below the largest [int]. *)
Theorem distinct_ids_preserved c s :
  NoDup (ID <$> s) →
  Mem.maxID s < GoInt.MaxInt →
  NoDup (ID <$> (Mem.serve c s).2).
Proof.
  intros Hnd Hlt.
  destruct (serve_cases c s)
    as [[Hs _]|[(r & data & -> & _ & _ & Hs & _)
       |[(r & k & old & data & -> & Hk & Hid & Hs & _)
        |(r & k & old & -> & _ & Hk & Hs & _)]]]; rewrite Hs.
  - done.
  - destruct (next_id_above s Hlt) as (Hadd & _ & Habove). rewrite Hadd.
    rewrite fmap_app. apply NoDup_app. split; [done|].
    split; [|apply NoDup_singleton].
    intros i Hi Hi'. apply list_elem_of_singleton in Hi'. simpl in Hi'.
    apply list_elem_of_fmap in Hi as (t & Heq & Ht). apply Habove in Ht. lia.
  - rewrite list_fmap_insert, list_insert_id; [done|].
    by rewrite list_lookup_fmap, Hk; simpl; rewrite Hid.
  - rewrite list_fmap_delete.
    eapply sublist_NoDup; [done|apply sublist_delete].
Qed.

Lemma distinct_ids_preserved_witness :
  let c := Mem.POST_todos (mkRequest (Err "no id") (Ok (mkTodo 0 "x" false))) in
  NoDup (ID <$> todos)
  ∧ Mem.maxID todos < GoInt.MaxInt
  ∧ NoDup (ID <$> (Mem.serve c todos).2).
Proof.
  intros c.
  assert (Hnd : NoDup (ID <$> todos)).
  { simpl. apply NoDup_cons. split; [|apply NoDup_singleton].
    intros H. by apply list_elem_of_singleton in H. }
  assert (Hlt : Mem.maxID todos < GoInt.MaxInt) by (vm_compute; reflexivity).
  split; [exact Hnd|]. split; [exact Hlt|].
  exact (distinct_ids_preserved c todos Hnd Hlt).
Defined.

(** X11. The length of the collection after a run is its length before, plus
    the number of 201 responses, minus the number of 204 responses: only a
    successful Create adds an item and only a successful Delete removes
    one. *)
Theorem length_accounting cs s :
  Z.of_nat (length (Mem.serve_all cs s).2)
  = Z.of_nat (length s)
    + Z.of_nat (count_status StatusCreated (Mem.serve_all cs s).1)
    - Z.of_nat (count_status StatusNoContent (Mem.serve_all cs s).1).
Proof.
  revert s. induction cs as [|c cs IH]; intros s.
  { unfold count_status. simpl. lia. }
  simpl. specialize (IH (Mem.serve c s).2).
  assert (Hstep :
    Z.of_nat (length (Mem.serve c s).2)
    = Z.of_nat (length s)
      + Z.of_nat (count_status StatusCreated [(Mem.serve c s).1])
      - Z.of_nat (count_status StatusNoContent [(Mem.serve c s).1])).
  { unfold count_status. serve_outcomes c s;
      rewrite ?length_app, ?length_insert; simpl; try lia.
    apply list_find_Some in Hf as (Hk & _).
    pose proof (lookup_lt_Some _ _ _ Hk).
    rewrite length_delete by done. lia. }
  destruct (Mem.serve c s) as [resp s1]. simpl in *.
  destruct (Mem.serve_all cs s1) as [resps s2]. simpl in *.
  unfold count_status in *. rewrite !filter_cons.
  simpl in Hstep. rewrite !filter_cons, !filter_nil in Hstep.
  repeat case_decide; simpl in *; lia.
Qed.

(** X12. Identifiers stay positive: in every collection reached from the
    start-up collection by at most 2^63 - 3 calls, each identifier lies
    between 1 and 2 plus the number of calls served. *)
Theorem ids_stay_positive cs :
  Z.of_nat (length cs) ≤ GoInt.MaxInt - 2 →
  ∀ t, t ∈ (Mem.serve_all cs todos).2 →
       1 ≤ ID t ≤ 2 + Z.of_nat (length cs).
Proof.
  assert (Hgen : ∀ cs s n,
    0 ≤ n → n + Z.of_nat (length cs) ≤ GoInt.MaxInt →
    NoDup (ID <$> s) → (∀ t, t ∈ s → 1 ≤ ID t ≤ n) →
    ∀ t, t ∈ (Mem.serve_all cs s).2 → 1 ≤ ID t ≤ n + Z.of_nat (length cs)).
  { clear cs. induction cs as [|c cs IH]; intros s n H0 Hn Hnd Hrange t Ht.
    { simpl in *. apply Hrange in Ht. lia. }
    simpl in *. destruct (Mem.serve c s) as [resp s1] eqn:Hc.
    destruct (Mem.serve_all cs s1) as [resps s2] eqn:Hcs. simpl in *.
    destruct (serve_keeps_distinct c s n) as [Hnd1 Hrange1]; [lia|done|done|].
    rewrite Hc in Hnd1, Hrange1. simpl in *.
    specialize (IH s1 (n + 1)). rewrite Hcs in IH. simpl in IH.
    specialize (IH ltac:(lia) ltac:(lia) Hnd1 Hrange1 t Ht). lia. }
  intros Hlen t Ht. apply (Hgen cs todos 2); [lia|lia| | |done].
  - simpl. apply NoDup_cons. split; [|apply NoDup_singleton].
    intros H. by apply list_elem_of_singleton in H.
  - intros u Hu. repeat (apply elem_of_cons in Hu as [->|Hu]); simpl; try lia.
    by apply elem_of_nil in Hu.
Qed.

Lemma ids_stay_positive_witness :
  let cs := [Mem.POST_todos (mkRequest (Err "no id") (Ok (mkTodo 0 "x" false)));
             Mem.DELETE_todo (mkRequest (Ok 1) (Err "EOF"))] in
  Z.of_nat (length cs) ≤ GoInt.MaxInt - 2
  ∧ ∀ t, t ∈ (Mem.serve_all cs todos).2 → 1 ≤ ID t ≤ 2 + Z.of_nat (length cs).
Proof.
  intros cs.
  assert (Hlen : Z.of_nat (length cs) ≤ GoInt.MaxInt - 2).
  { rewrite MaxInt_value. simpl. lia. }
  split; [exact Hlen|].
  exact (ids_stay_positive cs Hlen).
Defined.

(** ** The table-backed handlers *)

(** The scan loop collects the rows in order and stops at the first scan
    that fails. *)
Lemma scan_rows_Ok scans acc l :
  Sql.scan_rows scans acc = Ok l ↔ ∃ ts, scans = Ok <$> ts ∧ l = acc ++ ts.
Proof.
  revert acc. induction scans as [|[t|msg] scans IH]; intros acc; simpl.
  - split.
    + intros [= <-]. exists []. by rewrite app_nil_r.
    + intros ([|] & Hts & ->); [by rewrite app_nil_r|done].
  - rewrite IH. split.
    + intros (ts & -> & ->). exists (t :: ts). by rewrite <- app_assoc.
    + intros ([|t' ts] & Hts & ->); [done|]. injection Hts as <- ->.
      exists ts. by rewrite <- app_assoc.
  - split; [done|]. by intros ([|] & Hts & _).
Qed.

Lemma fmap_Ok_inj {A} (l1 l2 : list A) :
  (Ok <$> l1 : list (result A)) = Ok <$> l2 → l1 = l2.
Proof.
  revert l2. induction l1 as [|x l1 IH]; intros [|y l2]; simpl; try done.
  intros [= -> Hl]. f_equal. by apply IH.
Qed.

(** X13. The table-backed List answers 200 with a list exactly when the
    query succeeds, every row scans and the iteration ends without error,
    and the list is then the rows in the order the driver delivers them; in
    every other case it answers the generic 500. *)
Theorem table_list_all_or_nothing {DB : Type} (drv : Sql.Driver DB) (db : DB) :
  (∀ ts db',
     Sql.ListHandler drv db = (json_response StatusOK (JSONTodos ts), db')
     ↔ ∃ rows, Sql.Query drv db = (Ok rows, db')
               ∧ Sql.Scans rows = Ok <$> ts ∧ Sql.RowsErr rows = None)
  ∧ ((∃ ts, (Sql.ListHandler drv db).1 = json_response StatusOK (JSONTodos ts))
     ∨ (Sql.ListHandler drv db).1 = Sql.internal_error).
Proof.
  unfold Sql.ListHandler. destruct (Sql.Query drv db) as [[rows|msg] db1].
  - destruct (Sql.scan_rows (Sql.Scans rows) []) as [l|msg] eqn:Hscan.
    + apply scan_rows_Ok in Hscan as (ts0 & Hts0 & ->). simpl.
      destruct (Sql.RowsErr rows) as [e|] eqn:He.
      * split; [|by right]. intros ts db'. split; [done|].
        intros (rows' & [= <- <-] & _ & Hnone). congruence.
      * split; [|left; by eexists]. intros ts db'. split.
        -- intros [= <- <-]. by exists rows.
        -- intros (rows' & [= <- <-] & Hts & _). rewrite Hts0 in Hts.
           by apply fmap_Ok_inj in Hts as <-.
    + split; [|by right]. intros ts db'. split; [done|].
      intros (rows' & [= <- <-] & Hts & _).
      assert (Hok : Sql.scan_rows (Sql.Scans rows) [] = Ok ([] ++ ts)).
      { apply scan_rows_Ok. by exists ts. }
      congruence.
  - split; [|by right]. intros ts db'. split; [done|].
    by intros (rows' & [= ] & _).
Qed.

(** X14. The table-backed routes answer with the statuses of the in-memory
    routes or with 500, and a 500 response always carries the fixed text
    "Internal server error", whatever error the driver reported. *)
Theorem table_statuses {DB : Type} (drv : Sql.Driver DB) c (db : DB) :
  let resp := (Sql.serve drv c db).1 in
  match c with
  | Mem.GET_todos => Status resp ∈ [200; 500]
  | Mem.GET_todo _ => Status resp ∈ [200; 400; 404; 500]
  | Mem.POST_todos _ => Status resp ∈ [201; 400; 500]
  | Mem.PUT_todo _ => Status resp ∈ [200; 400; 404; 409; 500]
  | Mem.DELETE_todo _ => Status resp ∈ [204; 400; 404; 500]
  end
  ∧ (Status resp = StatusInternalServerError → resp = Sql.internal_error).
Proof.
  destruct c as [|[[id|?] ?]|[? [data|?]]|[[id|?] [data|?]]|[[id|?] ?]];
    simpl;
    unfold Sql.ListHandler, Sql.ReadHandler, Sql.CreateHandler,
      Sql.DeleteHandler, Table.UpdateHandler; simpl.
  - destruct (Sql.Query drv db) as [[rows|?] ?]; simpl;
      [destruct (Sql.scan_rows _ _); [destruct (Sql.RowsErr rows)|]|];
      simpl; (split; [repeat first [by left | right]|done]).
  - destruct (Sql.QueryRow drv id db) as [[]?]; simpl;
      (split; [repeat first [by left | right]|done]).
  - split; [repeat first [by left | right]|done].
  - destruct (String.eqb (Task data) ""); simpl;
      [split; [repeat first [by left | right]|done]|].
    destruct (Sql.Exec drv _ db) as [[[[?|?] ?]|?] ?]; simpl;
      (split; [repeat first [by left | right]|done]).
  - split; [repeat first [by left | right]|done].
  - destruct (negb (id =? ID data)); simpl;
      [split; [repeat first [by left | right]|done]|].
    destruct (Sql.ExecUpdate drv _ db) as [[[[n|?]]|?] ?]; simpl;
      [destruct (n =? 0)| |]; simpl;
      (split; [repeat first [by left | right]|done]).
  - split; [repeat first [by left | right]|done].
  - split; [repeat first [by left | right]|done].
  - split; [repeat first [by left | right]|done].
  - destruct (Sql.Exec drv _ db) as [[[? [n|?]]|?] ?]; simpl;
      [destruct (n =? 0)| |]; simpl;
      (split; [repeat first [by left | right]|done]).
  - split; [repeat first [by left | right]|done].
Qed.

Lemma table_statuses_witness :
  let drv := Sql.mkDriver unit
               (λ db, (Err "bad connection", db))
               (λ _ db, (Sql.ScanErr "bad connection", db))
               (λ _ db, (Err "bad connection", db))
               (λ _ db, (Err "bad connection", db)) in
  Status (Sql.serve drv Mem.GET_todos tt).1 = StatusInternalServerError
  ∧ (Sql.serve drv Mem.GET_todos tt).1 = Sql.internal_error.
Proof.
  intros drv.
  assert (H : Status (Sql.serve drv Mem.GET_todos tt).1
              = StatusInternalServerError) by reflexivity.
  split; [exact H|].
  exact (proj2 (table_statuses drv Mem.GET_todos tt) H).
Defined.

Lemma client_error_status z : z ∈ [400; 409] ↔ z = 400 ∨ z = 409.
Proof.
  rewrite !elem_of_cons. split; [|tauto].
  intros [?|[?|H]]; [tauto|tauto|by apply elem_of_nil in H].
Qed.

(** Refutes that a success, 404 or 500 status is a client error. *)
Ltac not_client_error :=
  let H := fresh in
  intros H; apply client_error_status in H; exfalso;
  unfold StatusOK, StatusCreated, StatusNoContent, StatusNotFound,
    StatusInternalServerError in H; lia.

(** X15. Both variants reject the same requests in the same way: a call that
    the in-memory handlers answer with 400 or 409 gets the very same response
    from the table-backed handlers, which then return without calling the
    driver, so that the table is untouched; and the table-backed handlers
    answer 400 or 409 to no other call. *)
Theorem client_errors_agree {DB : Type} (drv : Sql.Driver DB) c s (db : DB) :
  (Status (Mem.serve c s).1 ∈ [400; 409] →
   Sql.serve drv c db = ((Mem.serve c s).1, db))
  ∧ (Status (Sql.serve drv c db).1 ∈ [400; 409] →
     Status (Mem.serve c s).1 ∈ [400; 409]).
Proof.
  split.
  - rewrite (serve_spec c s).
    destruct c as [|[[id|?] ?]|[? [data|?]]|[[id|?] [data|?]]|[[id|?] ?]];
      simpl; try done.
    + not_client_error.
    + destruct (list_find _ s) as [[? ?]|]; simpl; not_client_error.
    + unfold Sql.CreateHandler. simpl.
      destruct (decide (Task data = "")) as [->|Hne]; [done|]. simpl.
      not_client_error.
    + unfold Table.UpdateHandler. simpl.
      destruct (decide (id = ID data)) as [->|Hne].
      * destruct (list_find _ s) as [[? ?]|]; simpl; not_client_error.
      * by destruct (Z.eqb_spec id (ID data)).
    + destruct (list_find _ s) as [[? ?]|]; simpl; not_client_error.
  - rewrite (serve_spec c s).
    destruct c as [|[[id|?] ?]|[? [data|?]]|[[id|?] [data|?]]|[[id|?] ?]];
      simpl;
      unfold Sql.ListHandler, Sql.ReadHandler, Sql.CreateHandler,
        Sql.DeleteHandler, Table.UpdateHandler; simpl;
      try (intros _; apply client_error_status; by left).
    + destruct (Sql.Query drv db) as [[rows|?] ?]; simpl;
        [destruct (Sql.scan_rows _ _); [destruct (Sql.RowsErr rows)|]|];
        simpl; not_client_error.
    + destruct (Sql.QueryRow drv id db) as [[]?]; simpl; not_client_error.
    + destruct (String.eqb_spec (Task data) "") as [->|Hne]; simpl.
      * intros _. apply client_error_status. by left.
      * rewrite decide_False by done.
        destruct (Sql.Exec drv _ db) as [[[[?|?] ?]|?] ?]; simpl;
          not_client_error.
    + destruct (Z.eqb_spec id (ID data)) as [->|Hne]; simpl.
      * rewrite decide_True by done.
        destruct (Sql.ExecUpdate drv _ db) as [[[[n|?]]|?] ?]; simpl;
          [destruct (n =? 0)| |]; simpl; not_client_error.
      * rewrite decide_False by done. intros _. apply client_error_status. by right.
    + destruct (Sql.Exec drv _ db) as [[[? [n|?]]|?] ?]; simpl;
        [destruct (n =? 0)| |]; simpl; not_client_error.
Qed.

Lemma client_errors_agree_witness :
  let drv := Sql.mkDriver unit
               (λ db, (Err "bad connection", db))
               (λ _ db, (Sql.ScanErr "bad connection", db))
               (λ _ db, (Err "bad connection", db))
               (λ _ db, (Err "bad connection", db)) in
  let c := Mem.PUT_todo (mkRequest (Ok 1) (Ok (mkTodo 2 "Learn Go" true))) in
  Status (Mem.serve c todos).1 ∈ [400; 409]
  ∧ Sql.serve drv c tt = ((Mem.serve c todos).1, tt).
Proof.
  intros drv c.
  assert (H : Status (Mem.serve c todos).1 ∈ [400; 409]).
  { apply client_error_status. right. reflexivity. }
  split; [exact H|].
  exact (proj1 (client_errors_agree drv c todos tt) H).
Defined.

(** ** Not found, conflict and the bounds of the index *)

(** X16. A call is answered 404 exactly when the request is well formed and
    asks for an identifier that no stored item carries (Read, Delete, and an
    Update whose body identifier equals the path identifier), and 409 exactly
    when it is an Update whose path and body decode to different identifiers.
    List and Create are never answered 404 or 409. *)
Theorem not_found_iff_absent c s :
  (Status (Mem.serve c s).1 = StatusNotFound ↔
   match c with
   | Mem.GET_todo r | Mem.DELETE_todo r =>
       ∃ i, PathID r = Ok i ∧ ∀ t, t ∈ s → ID t ≠ i
   | Mem.PUT_todo r =>
       ∃ data, PathID r = Ok (ID data) ∧ Body r = Ok data
               ∧ ∀ t, t ∈ s → ID t ≠ ID data
   | _ => False
   end)
  ∧ (Status (Mem.serve c s).1 = StatusConflict ↔
     match c with
     | Mem.PUT_todo r =>
         ∃ i data, PathID r = Ok i ∧ Body r = Ok data ∧ i ≠ ID data
     | _ => False
     end).
Proof.
  rewrite (serve_spec c s).
  destruct c as [|[[i|?] ?]|[? [data|?]]|[[i|?] [data|?]]|[[i|?] ?]]; simpl.
  - done.
  - destruct (list_find _ s) as [[k t]|] eqn:Hf; simpl; (split; [|done]).
    + split; [done|]. intros (i' & [= <-] & Hnone).
      apply not_stored_list_find in Hnone. congruence.
    + split; [|done]. intros _. exists i. split; [done|].
      by apply not_stored_list_find.
  - split; [|done]. split; [done|]. by intros (? & ? & _).
  - destruct (decide (Task data = "")); simpl; done.
  - done.
  - destruct (decide (i = ID data)) as [->|Hne].
    + destruct (list_find _ s) as [[k t]|] eqn:Hf; simpl; split.
      * split; [done|]. intros (d & [= Hd] & [= <-] & Hnone).
        apply not_stored_list_find in Hnone. congruence.
      * split; [done|]. by intros (? & ? & [= <-] & [= <-] & ?).
      * split; [|done]. intros _. exists data. split; [done|]. split; [done|].
        by apply not_stored_list_find.
      * split; [done|]. by intros (? & ? & [= <-] & [= <-] & ?).
    + simpl. split.
      * split; [done|]. by intros (d & [= ->] & [= <-] & _).
      * split; [|done]. intros _. by exists i, data.
  - split; split; try done.
    + by intros (? & ? & ? & _).
    + by intros (? & ? & _ & ? & _).
  - split; split; try done.
    + by intros (? & ? & _).
    + by intros (? & ? & ? & _).
  - split; split; try done.
    + by intros (? & ? & _).
    + by intros (? & ? & ? & _).
  - destruct (list_find _ s) as [[k t]|] eqn:Hf; simpl; (split; [|done]).
    + split; [done|]. intros (i' & [= <-] & Hnone).
      apply not_stored_list_find in Hnone. congruence.
    + split; [|done]. intros _. exists i. split; [done|].
      by apply not_stored_list_find.
  - split; [|done]. split; [done|]. by intros (? & ? & _).
Qed.

(** X17. The index that [UpdateHandler] assigns through and that
    [DeleteHandler] hands to [slices.Delete] is within the collection
    whenever it is not -1, and it is the position of the first item with the
    identifier asked for; it is -1 exactly when no item carries it.  So
    [todos[idx] = data] and [slices.Delete(todos, idx, idx+1)] never run out
    of range. *)
Theorem index_within_bounds s i :
  let idx := IndexFunc s (λ t, ID t =? i) in
  (idx = -1 ↔ ∀ t, t ∈ s → ID t ≠ i)
  ∧ (idx ≠ -1 →
     0 ≤ idx < Z.of_nat (length s)
     ∧ idx + 1 ≤ Z.of_nat (length s)
     ∧ ∃ t, s !! Z.to_nat idx = Some t ∧ ID t = i
            ∧ ∀ j u, s !! j = Some u → (j < Z.to_nat idx)%nat → ID u ≠ i).
Proof.
  simpl. unfold IndexFunc. rewrite index_from_list_find.
  destruct (list_find (λ t, ID t = i) s) as [[k t]|] eqn:Hf.
  - apply list_find_Some in Hf as (Hk & Hid & Hfirst).
    pose proof (lookup_lt_Some _ _ _ Hk) as Hlt. split.
    + split; [lia|]. intros Hnone. apply list_elem_of_lookup_2 in Hk.
      by apply Hnone in Hk.
    + intros _. split; [lia|]. split; [lia|]. exists t.
      replace (Z.to_nat (0 + Z.of_nat k)) with k by lia.
      split; [done|]. split; [done|]. intros j u Hj Hjk. by eapply Hfirst.
  - split; [|done]. split; [|done]. intros _. by apply not_stored_list_find.
Qed.

Lemma index_within_bounds_witness :
  IndexFunc todos (λ t, ID t =? 2) ≠ -1
  ∧ 0 ≤ IndexFunc todos (λ t, ID t =? 2) < Z.of_nat (length todos).
Proof.
  assert (H : IndexFunc todos (λ t, ID t =? 2) ≠ -1) by (vm_compute; discriminate).
  split; [exact H|].
  exact (proj1 (proj2 (index_within_bounds todos 2) H)).
Defined.
